(** * freetime: free slots of the next workdays

    A shallow embedding of [freetime.go]: the [Range] type with its
    [split] and [After] operations, the workday generator [nextWorkDay],
    the reduction loop that subtracts busy events from the free ranges
    and the pruning loop that drops short ranges, followed by the
    properties the specification states about them.

    The program relies on Go's package [time].  That package is modelled
    in [Module time] from its documented behaviour: an instant is a
    count of nanoseconds since the Unix epoch, a location gives the
    offset east of UTC in force at each instant (so that it may change,
    as it does with daylight-saving time), the calendar is the proleptic
    Gregorian one, and monotonic clock readings are left out (no
    comparison of the program involves two of them). *)

From Stdlib Require Import ZArith List Bool Lia QArith String.
Import ListNotations.
Local Open Scope Z_scope.

(* ================================================================== *)
(** ** Package [time] *)

Module time.

(** [*time.Location]: the zone in use at each instant.  Of a zone only the
    offset matters here: [offsetAt loc sec] is the offset, in seconds
    east of UTC, in force in the location at the instant [sec], given in
    seconds since the Unix epoch. *)
Record Loc : Type := mkLoc {
  offsetAt : Z -> Z
}.

(** [time.FixedZone(name, offset)]: the location that always uses the
    given offset. *)
Definition FixedZone (offset : Z) : Loc := mkLoc (fun _ => offset).

(** [time.UTC] *)
Definition UTC : Loc := FixedZone 0.

(** [time.Time]: the instant and the location it is presented in. *)
Record Time : Type := mkTime {
  unixNano : Z;   (* nanoseconds since 1970-01-01T00:00:00Z *)
  zone : Loc      (* the location *)
}.

(** [t.Unix()]: seconds since the Unix epoch. *)
Definition Unix (t : Time) : Z := unixNano t / 1000000000.

(** [t.After(u)], [t.Before(u)], [t.Equal(u)] compare instants; the
    location takes no part. *)
Definition After (t u : Time) : bool := unixNano u <? unixNano t.
Definition Before (t u : Time) : bool := unixNano t <? unixNano u.
Definition Equal (t u : Time) : bool := unixNano t =? unixNano u.

(** [t.Location()] *)
Definition Location (t : Time) : Loc := zone t.

(** *** Durations *)

(** [time.Duration] is an int64 count of nanoseconds. *)
Definition Duration : Type := Z.

Definition Nanosecond : Duration := 1.
Definition Second : Duration := 1000000000 * Nanosecond.
Definition Minute : Duration := 60 * Second.
Definition Hour : Duration := 60 * Minute.

Definition minDuration : Duration := - 2 ^ 63.
Definition maxDuration : Duration := 2 ^ 63 - 1.

(** [t.Sub(u)]: the duration t-u, saturated at the bounds of int64. *)
Definition Sub (t u : Time) : Duration :=
  let d := unixNano t - unixNano u in
  if d <? minDuration then minDuration
  else if maxDuration <? d then maxDuration
  else d.

Section Float64.

(** Rounding of a real number to float64.  Every conversion and every
    operation of float64 arithmetic rounds its exact result. *)
Variable round : Q -> Q.

(** [d.Minutes()]:
<<
    min := d / Minute
    nsec := d % Minute
    return float64(min) + float64(nsec)/(60*1e9)
>>
    with the truncating quotient and remainder of int64. *)
Definition Minutes (d : Duration) : Q :=
  let min := Z.quot d Minute in
  let nsec := Z.rem d Minute in
  round (round (inject_Z min)
         + round (round (inject_Z nsec) / round (inject_Z (60 * 1000000000))))%Q.

End Float64.

(** *** The calendar *)

Definition secondsPerMinute : Z := 60.
Definition secondsPerHour : Z := 60 * secondsPerMinute.
Definition secondsPerDay : Z := 24 * secondsPerHour.
Definition daysPer400Years : Z := 365 * 400 + 97.
Definition daysPer100Years : Z := 365 * 100 + 24.
Definition daysPer4Years : Z := 365 * 4 + 1.

(** Days from 0001-01-01 (the origin of the day count used here) to
    1970-01-01. *)
Definition unixEpochDay : Z := 719162.

(** The weekdays, [Sunday = 0] to [Saturday = 6]. *)
Definition Sunday : Z := 0.
Definition Monday : Z := 1.
Definition Tuesday : Z := 2.
Definition Wednesday : Z := 3.
Definition Thursday : Z := 4.
Definition Friday : Z := 5.
Definition Saturday : Z := 6.

(** [daysBefore[m]]: days of a non-leap year before month m+1. *)
Definition daysBefore : list Z :=
  [0; 31; 59; 90; 120; 151; 181; 212; 243; 273; 304; 334; 365].

Definition isLeap (year : Z) : bool :=
  (year mod 4 =? 0) && (negb (year mod 100 =? 0) || (year mod 400 =? 0)).

(** Days from 0001-01-01 to the first of January of [year]. *)
Definition daysSinceEpoch (year : Z) : Z :=
  let y := year - 1 in
  365 * y + y / 4 - y / 100 + y / 400.

(** [norm(hi, lo, base)]: carries the overflow of [lo] into [hi]. *)
Definition norm (hi lo base : Z) : Z * Z := (hi + lo / base, lo mod base).

(** [time.Date(year, month, day, hour, min, sec, nsec, loc)]: values
    outside their usual ranges are normalised, so the 32nd of October
    is the first of November.  The wall clock asked for is first read as
    if it were UTC; the offset in force then gives a guess of the
    instant, and the offset in force at that guess is the one that is
    subtracted:
<<
      _, offset, start, end, _ := l.lookup(unix)
      if offset != 0 {
        utc := unix - int64(offset)
        if utc < start || utc >= end {
          _, offset, _, _, _ = l.lookup(utc)
        }
        unix -= int64(offset)
      }
>>
    where [start] and [end] bound the period of the zone found, in which
    the offset does not change: in both cases [offset] ends as the
    offset in force at [utc].  A wall clock that a transition skips or
    repeats is resolved this way to one of the two zones involved. *)
Definition Date (year month day hour min sec nsec : Z) (loc : Loc) : Time :=
  let m := month - 1 in
  let '(year, m) := norm year m 12 in
  let month := m + 1 in
  let '(sec, nsec) := norm sec nsec 1000000000 in
  let '(min, sec) := norm min sec 60 in
  let '(hour, min) := norm hour min 60 in
  let '(day, hour) := norm day hour 24 in
  let d := daysSinceEpoch year in
  let d := d + nth (Z.to_nat (month - 1)) daysBefore 0 in
  let d := if isLeap year && (3 <=? month) then d + 1 else d in
  let d := d + (day - 1) in
  let abs := d * secondsPerDay in
  let abs := abs + (hour * secondsPerHour + min * secondsPerMinute + sec) in
  let unix := abs - unixEpochDay * secondsPerDay in
  let offset := offsetAt loc unix in
  let unix :=
    if offset =? 0 then unix
    else
      let utc := unix - offset in
      let offset := offsetAt loc utc in
      unix - offset in
  mkTime (unix * 1000000000 + nsec) loc.

(** [t.abs()]: seconds of the local wall clock of [t] since
    0001-01-01T00:00:00, with the offset in force at [t]. *)
Definition abs (t : Time) : Z :=
  let sec := Unix t in
  let offset := offsetAt (zone t) sec in
  sec + offset + unixEpochDay * secondsPerDay.

Definition nsec (t : Time) : Z := unixNano t mod 1000000000.

(** Year and day of the year (from 0) of a day count. *)
Definition absDate (days : Z) : Z * Z :=
  let d := days in
  (* 400-year cycles *)
  let n := d / daysPer400Years in
  let y := 400 * n in
  let d := d - daysPer400Years * n in
  (* 100-year cycles; the last one has an extra leap day *)
  let n := d / daysPer100Years in
  let n := n - Z.shiftr n 2 in
  let y := y + 100 * n in
  let d := d - daysPer100Years * n in
  (* 4-year cycles *)
  let n := d / daysPer4Years in
  let y := y + 4 * n in
  let d := d - daysPer4Years * n in
  (* years of a 4-year cycle; the last one has an extra day *)
  let n := d / 365 in
  let n := n - Z.shiftr n 2 in
  let y := y + n in
  let d := d - 365 * n in
  (y + 1, d).

(** Year, month and day of the month of a day count. *)
Definition civil (days : Z) : Z * Z * Z :=
  let '(year, yday) := absDate days in
  let day := yday in
  if isLeap year && (day =? 31 + 29 - 1) then (year, 2, 29)
  else
    let day := if isLeap year && (31 + 29 - 1 <? day) then day - 1 else day in
    let month := day / 31 in
    let end_ := nth (Z.to_nat (month + 1)) daysBefore 0 in
    let '(month, begin) :=
      if end_ <=? day then (month + 1, end_)
      else (month, nth (Z.to_nat month) daysBefore 0) in
    (year, month + 1, day - begin + 1).

(** [t.Date()] *)
Definition date (t : Time) : Z * Z * Z := civil (abs t / secondsPerDay).

Definition Year (t : Time) : Z := fst (fst (date t)).
Definition Month (t : Time) : Z := snd (fst (date t)).
Definition Day (t : Time) : Z := snd (date t).

(** [t.Clock()]: hour, minute and second of the day. *)
Definition Clock (t : Time) : Z * Z * Z :=
  let sec := abs t mod secondsPerDay in
  let hour := sec / secondsPerHour in
  let sec := sec - hour * secondsPerHour in
  let min := sec / secondsPerMinute in
  let sec := sec - min * secondsPerMinute in
  (hour, min, sec).

(** [t.Weekday()]: 0001-01-01 is a Monday. *)
Definition Weekday (t : Time) : Z :=
  let sec := (abs t + Monday * secondsPerDay) mod (7 * secondsPerDay) in
  sec / secondsPerDay.

(** [t.AddDate(years, months, days)] *)
Definition AddDate (t : Time) (years months days : Z) : Time :=
  let '(year, month, day) := date t in
  let '(hour, min, sec) := Clock t in
  Date (year + years) (month + months) (day + days) hour min sec (nsec t)
       (Location t).

End time.

(** An integer where a location is expected is the fixed zone of that
    offset. *)
Coercion time.FixedZone : Z >-> time.Loc.

(* ================================================================== *)
(** ** The [Range] type *)

(** [type Range struct { start time.Time; end time.Time }] *)
Record Range : Type := mkRange {
  start : time.Time;
  end_ : time.Time
}.

Definition Start (r : Range) : time.Time := start r.

Definition Duration (r : Range) : time.Duration := time.Sub (end_ r) (start r).

Definition End (r : Range) : time.Time := end_ r.

(** [func (r *Range) split(start, end time.Time) []Range] *)
Definition split (r : Range) (start end_ : time.Time) : list Range :=
  let ret := [] in
  (* don't split if r starts after splitter ends *)
  if time.After (Start r) end_ || time.Equal (Start r) end_ then [r]
  (* don't split if splitter starts after r ends *)
  else if time.Before (End r) start || time.Equal (End r) start then [r]
  else
    (* first range if splitter starts during r *)
    let ret :=
      if time.After start (Start r) && time.Before start (End r)
      then ret ++ [mkRange (Start r) start] else ret in
    (* second range if splitter ends during r *)
    let ret :=
      if time.After end_ (Start r) && time.Before end_ (End r)
      then ret ++ [mkRange end_ (End r)] else ret in
    ret.

(** [func (r *Range) After(t time.Time) Range] *)
Definition After (r : Range) (t : time.Time) : Range :=
  if time.After t (End r) then mkRange (End r) (End r)
  else if time.Before t (Start r) then r
  else mkRange t (End r).

(* ================================================================== *)
(** ** The workday generator *)

(** [func nextWorkDay(now time.Time) Range]: the workday after or
    including [now]. *)
Definition nextWorkDay (now : time.Time) : Range :=
  (* if it's after 6pm, advance to tomorrow at 10am,
     otherwise start at 10am today *)
  let nowAtSix :=
    time.Date (time.Year now) (time.Month now) (time.Day now) 18 0 0 0
              (time.Location now) in
  let nextStart :=
    if time.After now nowAtSix || time.Equal now nowAtSix then
      let nextStart := time.AddDate now 0 0 1 in
      time.Date (time.Year nextStart) (time.Month nextStart)
                (time.Day nextStart) 10 0 0 0 (time.Location nextStart)
    else
      time.Date (time.Year now) (time.Month now) (time.Day now) 10 0 0 0
                (time.Location now) in
  (* if it's the weekend, advance to the next weekday *)
  let nextStart :=
    if time.Weekday nextStart =? time.Saturday
    then time.AddDate nextStart 0 0 2
    else if time.Weekday nextStart =? time.Sunday
    then time.AddDate nextStart 0 0 1
    else nextStart in
  (* end at 6pm the same day *)
  let end_ :=
    time.Date (time.Year nextStart) (time.Month nextStart)
              (time.Day nextStart) 18 0 0 0 (time.Location nextStart) in
  mkRange nextStart end_.

(* ================================================================== *)
(** ** The loops of [main] *)

(** The inner loops of the reduction, once the instants of the event are
    parsed: every free range is split by the event and the pieces are
    appended, one at a time, to the new list.
<<
      newRanges := []Range{}
      for _, r := range freeRanges {
        splitRange := r.split(eventStart, eventEnd)
        for _, split := range splitRange {
          newRanges = append(newRanges, split)
        }
      }
      freeRanges = newRanges
>> *)
Definition subtract (freeRanges : list Range)
    (eventStart eventEnd : time.Time) : list Range :=
  fold_left
    (fun newRanges r =>
       let splitRange := split r eventStart eventEnd in
       fold_left (fun newRanges split => newRanges ++ [split])
                 splitRange newRanges)
    freeRanges [].

(** The fields of a [calendar.Event] the program reads: the [DateTime]
    strings of its start and of its end. *)
Record Event : Type := mkEvent {
  StartDateTime : string;
  EndDateTime : string
}.

Section Main.

(** [time.Parse(time.RFC3339, s)]; [None] stands for its error. *)
Variable Parse : string -> option time.Time.

(** Rounding to float64, see [time.Minutes]. *)
Variable round : Q -> Q.

(** One iteration of the loop over the busy events.  [None] is the
    fatal exit of [log.Fatalf]; an event whose start has no
    [DateTime] is an all-day event and leaves the list as it is.  The
    strings are parsed once per free range, inside the loop, as in the
    source. *)
Definition reduceStep (freeRanges : list Range) (event : Event)
    : option (list Range) :=
  if String.eqb (StartDateTime event) EmptyString then Some freeRanges
  else
    fold_left
      (fun acc r =>
         match acc with
         | None => None
         | Some newRanges =>
             match Parse (StartDateTime event) with
             | None => None
             | Some eventStart =>
                 match Parse (EndDateTime event) with
                 | None => None
                 | Some eventEnd =>
                     let splitRange := split r eventStart eventEnd in
                     Some (fold_left
                             (fun newRanges split => newRanges ++ [split])
                             splitRange newRanges)
                 end
             end
         end)
      freeRanges (Some []).

(** The loop over all busy events. *)
Definition reduce (freeRanges : list Range) (busyEvents : list Event)
    : option (list Range) :=
  fold_left
    (fun acc event =>
       match acc with
       | None => None
       | Some freeRanges => reduceStep freeRanges event
       end)
    busyEvents (Some freeRanges).

(** Prune short ranges.
<<
    longRanges := []Range{}
    for _, r := range freeRanges {
      if r.Duration().Minutes() >= 30 {
        longRanges = append(longRanges, r)
      }
    }
    freeRanges = longRanges
>> *)
Definition prune (freeRanges : list Range) : list Range :=
  fold_left
    (fun longRanges r =>
       if Qle_bool 30 (time.Minutes round (Duration r))
       then longRanges ++ [r] else longRanges)
    freeRanges [].

End Main.

(** [func contains(s string, slice []string) bool] *)
Fixpoint contains (s : string) (slice : list string) : bool :=
  match slice with
  | [] => false
  | i :: slice => if String.eqb i s then true else contains s slice
  end.

(** The fields of a [calendar.CalendarListEntry] the program reads. *)
Record CalendarListEntry : Type := mkCalendarListEntry {
  Summary : string;
  Id : string
}.

Definition busySummaries : list string :=
  ["UIUC"%string; "Social"%string; "YMCA"%string].

(** Find IDs of all calendars that cause me to be busy.
<<
      busyIDs := []string{}
      for _, i := range calendars.Items {
        if contains(i.Summary, busySummaries) {
          busyIDs = append(busyIDs, i.Id)
        }
      }
>> *)
Definition busyIDs (items : list CalendarListEntry) : list string :=
  fold_left
    (fun busyIDs i =>
       if contains (Summary i) busySummaries then busyIDs ++ [Id i]
       else busyIDs)
    items [].

(** The free ranges the first loop of [main] builds, one per day of the
    lookahead; the events it fetches on the way come from the calendar
    service and are an input of what follows.
<<
      freeRanges := []Range{}
      for i := 0; i < 3; i++ {
        nextDay := nextWorkDay(now.AddDate(0, 0, i))
        nextDay = nextDay.After(now) // don't look before now
        freeRanges = append(freeRanges, nextDay)
        ...
      }
>> *)
Definition seedRanges (now : time.Time) : list Range :=
  fold_left
    (fun freeRanges i =>
       let nextDay := nextWorkDay (time.AddDate now 0 0 i) in
       let nextDay := After nextDay now in
       freeRanges ++ [nextDay])
    [0; 1; 2] [].

(** The ranges [main] prints for the time [now] and the busy events the
    service returned: the seeded ranges, less the events, less the short
    ranges.  [None] is the fatal exit. *)
Definition freeTime (Parse : string -> option time.Time) (round : Q -> Q)
    (now : time.Time) (busyEvents : list Event) : option (list Range) :=
  match reduce Parse (seedRanges now) busyEvents with
  | None => None
  | Some freeRanges => Some (prune round freeRanges)
  end.

(* ================================================================== *)
(** ** Vocabulary of the properties *)

(** *** Calendar *)

(** The day count [time.Date] computes for a year, a month in 1..12 and
    a day of the month. *)
Definition daysOf (year month day : Z) : Z :=
  time.daysSinceEpoch year
  + nth (Z.to_nat (month - 1)) time.daysBefore 0
  + (if time.isLeap year && (3 <=? month) then 1 else 0)
  + (day - 1).

(** The local day a time falls on, counted from 0001-01-01. *)
Definition localDay (t : time.Time) : Z := time.abs t / time.secondsPerDay.

(** Seconds elapsed of the local day of [t]. *)
Definition secondOfDay (t : time.Time) : Z := time.abs t mod time.secondsPerDay.

Definition weekdayOf (day : Z) : Z := (day + 1) mod 7.

(** The wall clock [sec] seconds into local day [day], read as if it
    were UTC: seconds since the Unix epoch. *)
Definition wallUnix (day sec : Z) : Z :=
  (day - time.unixEpochDay) * time.secondsPerDay + sec.

(** The offset [time.Date] settles on for that wall clock. *)
Definition dateOffset (loc : time.Loc) (day sec : Z) : Z :=
  let unix := wallUnix day sec in
  time.offsetAt loc (unix - time.offsetAt loc unix).

(** The time [time.Date] returns for that wall clock. *)
Definition atClock (loc : time.Loc) (day sec : Z) : time.Time :=
  time.mkTime ((wallUnix day sec - dateOffset loc day sec) * 1000000000) loc.

(** The location resolves the wall clock: the time [time.Date] returns
    for it shows it, which is the case unless a transition of the
    location skips it. *)
Definition resolves (loc : time.Loc) (day sec : Z) : bool :=
  time.offsetAt loc (wallUnix day sec - dateOffset loc day sec)
  =? dateOffset loc day sec.

(** The time [time.Date] returns for [hour]:00:00 of local day [day]. *)
Definition atHour (day hour : Z) (loc : time.Loc) : time.Time :=
  atClock loc day (hour * time.secondsPerHour).

(** The workday 10:00 to 18:00 of local day [day]. *)
Definition workday (day : Z) (loc : time.Loc) : Range :=
  mkRange (atHour day 10 loc) (atHour day 18 loc).

(** The candidate day: the next one from 18:00 on. *)
Definition candidateDay (now : time.Time) : Z :=
  if 18 * 3600 <=? secondOfDay now then localDay now + 1 else localDay now.

(** Days a candidate day is moved by to leave the weekend. *)
Definition weekendSkip (day : Z) : Z :=
  if weekdayOf day =? time.Saturday then 2
  else if weekdayOf day =? time.Sunday then 1
  else 0.

(** [f] holds of the [n] integers from [z] on. *)
Fixpoint allFrom (f : Z -> bool) (z : Z) (n : nat) : bool :=
  match n with
  | O => true
  | S k => f z && allFrom f (z + 1) k
  end.

(** What is checked of every day of a 400-year cycle: [civil] yields a
    month in 1..12 and [daysOf] leads back to the day. *)
Definition civilOk (days : Z) : bool :=
  let '(year, month, day) := time.civil days in
  (daysOf year month day =? days) && (1 <=? month) && (month <=? 12).

(** *** Ranges *)

(** The instant of a time, the only part of it comparisons look at. *)
Definition instant (t : time.Time) : Z := time.unixNano t.

(** The invariant of the data model: a range does not end before it
    starts. *)
Definition wellFormed (r : Range) : Prop :=
  instant (Start r) <= instant (End r).

Definition positive (r : Range) : Prop :=
  instant (Start r) < instant (End r).

(** The splitter [s, e) overlaps [r], in the sense of the specification
    of [split]: it is not the case that [r] ends at or before [s] or
    starts at or after [e]; touching endpoints do not overlap. *)
Definition overlaps (r : Range) (s e : time.Time) : Prop :=
  instant (Start r) < instant e /\ instant s < instant (End r).

(** Two ranges overlap, in the same sense. *)
Definition rangesOverlap (a b : Range) : Prop :=
  overlaps a (Start b) (End b).

(** The instant [i] belongs to the half-open interval of [r]. *)
Definition covers (r : Range) (i : Z) : Prop :=
  instant (Start r) <= i < instant (End r).

(** [x] lies within [r]. *)
Definition within (x r : Range) : Prop :=
  instant (Start r) <= instant (Start x)
  /\ instant (End x) <= instant (End r).

(** [t] is strictly after the start and strictly before the end of [r]. *)
Definition strictlyInside (t : time.Time) (r : Range) : bool :=
  (instant (Start r) <? instant t) && (instant t <? instant (End r)).

(** The remainders of the specification of [split]. *)
Definition leftRemainder (r : Range) (s : time.Time) : Range :=
  mkRange (Start r) s.

Definition rightRemainder (r : Range) (e : time.Time) : Range :=
  mkRange e (End r).

(** *** The filter *)

(** The filter of the specification: the ranges that last 30 minutes or
    more, in their order. *)
Definition keepLong (ranges : list Range) : list Range :=
  filter (fun r => 30 * time.Minute <=? Duration r) ranges.

(** The values of float64 that matter here: [m * 2^e] for an integer [m]
    of at most 53 bits and an exponent in the range of the normal and
    subnormal numbers. *)
Definition float64Value (q : Q) : Prop :=
  exists m e : Z,
    Z.abs m <= 2 ^ 53 /\ -1074 <= e <= 970 /\ (q == inject_Z m * 2 ^ e)%Q.

(** What is assumed of rounding to float64: it is monotone and leaves
    the values of float64 as they are.  Rounding to nearest, as Go does,
    is such a function, and so is every other IEEE 754 rounding mode. *)
Definition roundsToFloat64 (round : Q -> Q) : Prop :=
  (forall x y : Q, (x <= y)%Q -> (round x <= round y)%Q)
  /\ (forall q : Q, float64Value q -> (round q == q)%Q).

(** *** Free time as a set of instants *)

(** The instant [i] is free: one of the ranges covers it. *)
Definition covered (ranges : list Range) (i : Z) : Prop :=
  Exists (fun r => covers r i) ranges.

(** The instant [i] is taken by the interval [s, e). *)
Definition taken (s e : time.Time) (i : Z) : Prop :=
  instant s <= i < instant e.

(** The ranges follow one another in time: each ends at or before the
    start of every later one. *)
Definition chronological (ranges : list Range) : Prop :=
  ForallOrdPairs (fun a b => instant (End a) <= instant (Start b)) ranges.

(** The event has a start [DateTime], and its two strings parse to [s]
    and [e]. *)
Definition parsesTo (Parse : string -> option time.Time) (event : Event)
    (s e : time.Time) : Prop :=
  StartDateTime event <> EmptyString
  /\ Parse (StartDateTime event) = Some s
  /\ Parse (EndDateTime event) = Some e.

(** The event is an all-day event, or its two strings parse. *)
Definition readable (Parse : string -> option time.Time) (event : Event)
    : Prop :=
  StartDateTime event = EmptyString \/ exists s e, parsesTo Parse event s e.

(** The instant [i] is taken by one of the events. *)
Definition busy (Parse : string -> option time.Time) (events : list Event)
    (i : Z) : Prop :=
  exists event s e, In event events /\ parsesTo Parse event s e /\ taken s e i.

(** A day from Monday to Friday. *)
Definition isWeekday (day : Z) : Prop :=
  time.Monday <= weekdayOf day <= time.Friday.

(** *** Locations *)

(** Offsets of the location differ by less than six hours, whatever
    the instants they are in force at. *)
Definition narrow (loc : time.Loc) : Prop :=
  forall u v : Z, time.offsetAt loc u - time.offsetAt loc v < 6 * 3600.

(** The location plays no trick on [nextWorkDay] at the time [now]:
    - [now] is at or after the time [time.Date] returns for 18:00 of its
      day exactly when its clock reads 18:00 or later;
    - when it does, the location resolves the clock of [now] on the next
      day;
    - the location resolves 10:00 of the candidate day, and 10:00 and
      18:00 of the day the candidate day is moved to. *)
Definition calm (now : time.Time) : bool :=
  let loc := time.zone now in
  let late := 18 * 3600 <=? secondOfDay now in
  let day := candidateDay now in
  let moved := day + weekendSkip day in
  Bool.eqb (instant (atHour (localDay now) 18 loc) <=? instant now) late
  && (if late then resolves loc (localDay now + 1) (secondOfDay now)
      else true)
  && resolves loc day (10 * 3600)
  && resolves loc moved (10 * 3600)
  && resolves loc moved (18 * 3600).

(** The same for the seeding loop: adding no day to [now] does not lead
    to an earlier time, the location resolves the clock of [now] on its
    day and on the next two, and plays no trick on [nextWorkDay] at these
    three times. *)
Definition calmSeeds (now : time.Time) : bool :=
  (instant now <=? instant (time.AddDate now 0 0 0))
  && forallb
       (fun i =>
          resolves (time.zone now) (localDay now + i) (secondOfDay now)
          && calm (time.AddDate now 0 0 i))
       [0; 1; 2].

(** The workday of local day [day] has not ended at [now]: the day is
    to come, or is the day of [now] and it is not 18:00 yet. *)
Definition notEnded (now : time.Time) (day : Z) : Prop :=
  localDay now < day
  \/ (localDay now = day /\ secondOfDay now < 18 * 3600).

(** America/Chicago during 2017: six hours west of UTC, five from
    2017-03-12 08:00:00 UTC to 2017-11-05 07:00:00 UTC. *)
Definition Chicago2017 : time.Loc :=
  time.mkLoc
    (fun sec =>
       if 1489305600 <=? sec
       then if 1509865200 <=? sec then -21600 else -18000
       else -21600).

(* ================================================================== *)
(** ** Facts on package [time] *)

Module timeFacts.

Lemma allFrom_sound (f : Z -> bool) (n : nat) :
  forall z, allFrom f z n = true ->
  forall k, z <= k < z + Z.of_nat n -> f k = true.
Proof.
  induction n as [|n IH]; intros z H k Hk.
  - simpl in Hk. lia.
  - cbn [allFrom] in H. apply andb_true_iff in H as [Hz Hrest].
    destruct (Z.eq_dec k z) as [->|Hne]; [exact Hz|].
    apply (IH (z + 1) Hrest). lia.
Qed.

(** Leap years repeat every 400 years. *)
Lemma isLeap_era (y n : Z) : time.isLeap (y + 400 * n) = time.isLeap y.
Proof.
  unfold time.isLeap.
  replace ((y + 400 * n) mod 4) with (y mod 4)
    by (replace (y + 400 * n) with (y + (100 * n) * 4) by ring;
        now rewrite Z.mod_add).
  replace ((y + 400 * n) mod 100) with (y mod 100)
    by (replace (y + 400 * n) with (y + (4 * n) * 100) by ring;
        now rewrite Z.mod_add).
  replace ((y + 400 * n) mod 400) with (y mod 400)
    by (replace (y + 400 * n) with (y + n * 400) by ring;
        now rewrite Z.mod_add).
  reflexivity.
Qed.

(** A 400-year cycle has [daysPer400Years] days. *)
Lemma daysSinceEpoch_era (y n : Z) :
  time.daysSinceEpoch (y + 400 * n)
  = time.daysSinceEpoch y + time.daysPer400Years * n.
Proof.
  unfold time.daysSinceEpoch, time.daysPer400Years. cbv zeta.
  replace (y + 400 * n - 1) with (y - 1 + 400 * n) by ring.
  replace ((y - 1 + 400 * n) / 4) with ((y - 1) / 4 + 100 * n)
    by (replace (y - 1 + 400 * n) with (y - 1 + (100 * n) * 4) by ring;
        now rewrite Z.div_add).
  replace ((y - 1 + 400 * n) / 100) with ((y - 1) / 100 + 4 * n)
    by (replace (y - 1 + 400 * n) with (y - 1 + (4 * n) * 100) by ring;
        now rewrite Z.div_add).
  replace ((y - 1 + 400 * n) / 400) with ((y - 1) / 400 + n)
    by (replace (y - 1 + 400 * n) with (y - 1 + n * 400) by ring;
        now rewrite Z.div_add).
  ring.
Qed.

Lemma daysOf_era (y m d n : Z) :
  daysOf (y + 400 * n) m d = daysOf y m d + time.daysPer400Years * n.
Proof.
  unfold daysOf. rewrite isLeap_era, daysSinceEpoch_era. ring.
Qed.

(** [absDate] works cycle by cycle. *)
Lemma absDate_era (days : Z) :
  time.absDate days
  = (fst (time.absDate (days mod time.daysPer400Years))
     + 400 * (days / time.daysPer400Years),
     snd (time.absDate (days mod time.daysPer400Years))).
Proof.
  assert (Hpos : 0 < time.daysPer400Years) by reflexivity.
  pose proof (Z.mod_pos_bound days _ Hpos) as Hr.
  pose proof (Z.div_mod days time.daysPer400Years ltac:(lia)) as Hd.
  set (n := days / time.daysPer400Years) in *.
  set (r := days mod time.daysPer400Years) in *.
  unfold time.absDate. cbv zeta.
  fold n.
  rewrite (Z.div_small r) by lia.
  replace (days - time.daysPer400Years * n) with r by lia.
  replace (r - time.daysPer400Years * 0) with r by lia.
  cbn [fst snd]. f_equal. ring.
Qed.

Lemma civil_era (days : Z) :
  time.civil days
  = let '(y, m, d) := time.civil (days mod time.daysPer400Years) in
    (y + 400 * (days / time.daysPer400Years), m, d).
Proof.
  unfold time.civil. rewrite (absDate_era days).
  destruct (time.absDate (days mod time.daysPer400Years)) as [y yd].
  cbn [fst snd]. rewrite isLeap_era.
  destruct (time.isLeap y && (yd =? 31 + 29 - 1)); [reflexivity|].
  match goal with
  | |- context [if ?c then (?a, ?b) else (?a', ?b')] => destruct c
  end; reflexivity.
Qed.

Lemma civilOk_cycle :
  allFrom civilOk 0 (Z.to_nat time.daysPer400Years) = true.
Proof. vm_compute. reflexivity. Qed.

(** [civil] and [daysOf] are inverse of each other on every day. *)
Lemma civilOk_all (days : Z) : civilOk days = true.
Proof.
  assert (Hpos : 0 < time.daysPer400Years) by reflexivity.
  pose proof (Z.mod_pos_bound days _ Hpos) as Hr.
  pose proof (Z.div_mod days time.daysPer400Years ltac:(lia)) as Hd.
  pose proof (allFrom_sound _ _ _ civilOk_cycle
                (days mod time.daysPer400Years)) as Hc.
  rewrite Z2Nat.id in Hc by lia. specialize (Hc ltac:(lia)).
  unfold civilOk in *. rewrite civil_era.
  destruct (time.civil (days mod time.daysPer400Years)) as [[y m] d].
  rewrite daysOf_era.
  apply andb_true_iff in Hc as [Hc H12].
  apply andb_true_iff in Hc as [Hc H1].
  rewrite H1, H12, !andb_true_r.
  apply Z.eqb_eq in Hc. apply Z.eqb_eq. lia.
Qed.

Lemma daysOf_civil (days : Z) :
  let '(y, m, d) := time.civil days in
  daysOf y m d = days /\ 1 <= m <= 12.
Proof.
  pose proof (civilOk_all days) as H. unfold civilOk in H.
  destruct (time.civil days) as [[y m] d].
  apply andb_true_iff in H as [H H12].
  apply andb_true_iff in H as [H H1].
  apply Z.eqb_eq in H. apply Z.leb_le in H1, H12. lia.
Qed.


(** [Date] on a month, an hour, a minute, a second and a nanosecond in
    their usual ranges: nothing is carried, the day counts from the
    first of the month, whatever its size, and the offset is the one
    [dateOffset] describes. *)
Lemma Date_normal (year month day hour min sec nsec : Z) (loc : time.Loc) :
  1 <= month <= 12 -> 0 <= hour < 24 -> 0 <= min < 60 -> 0 <= sec < 60 ->
  0 <= nsec < 1000000000 ->
  time.Date year month day hour min sec nsec loc
  = time.mkTime
      (instant (atClock loc (daysOf year month day)
                        (hour * 3600 + min * 60 + sec)) + nsec)
      loc.
Proof.
  intros Hm Hh Hmi Hs Hn.
  unfold time.Date, time.norm.
  rewrite (Z.div_small (month - 1) 12), (Z.mod_small (month - 1) 12) by lia.
  rewrite (Z.div_small nsec), (Z.mod_small nsec) by lia.
  cbv beta iota zeta. rewrite !Z.add_0_r.
  rewrite (Z.div_small sec 60), (Z.mod_small sec 60) by lia.
  rewrite !Z.add_0_r.
  rewrite (Z.div_small min 60), (Z.mod_small min 60) by lia.
  rewrite !Z.add_0_r.
  rewrite (Z.div_small hour 24), (Z.mod_small hour 24) by lia.
  rewrite !Z.add_0_r.
  replace (month - 1 + 1) with month by ring.
  unfold instant, atClock, dateOffset. cbn [time.unixNano].
  set (w := wallUnix (daysOf year month day) (hour * 3600 + min * 60 + sec)).
  assert (Hw :
    (if time.isLeap year && (3 <=? month)
     then time.daysSinceEpoch year
          + nth (Z.to_nat (month - 1)) time.daysBefore 0 + 1
     else time.daysSinceEpoch year
          + nth (Z.to_nat (month - 1)) time.daysBefore 0)
    + (day - 1) = daysOf year month day).
  { unfold daysOf. destruct (time.isLeap year && (3 <=? month)); ring. }
  rewrite Hw.
  replace (daysOf year month day * time.secondsPerDay
           + (hour * time.secondsPerHour + min * time.secondsPerMinute + sec)
           - time.unixEpochDay * time.secondsPerDay)
    with w
    by (unfold w, wallUnix, time.secondsPerHour, time.secondsPerMinute; ring).
  destruct (Z.eqb_spec (time.offsetAt loc w) 0) as [E|E]; [|reflexivity].
  rewrite E, Z.sub_0_r, E, Z.sub_0_r. reflexivity.
Qed.

(** The wall clock of a time decomposes into its day and its second of
    the day. *)
Lemma abs_split (t : time.Time) :
  time.abs t = localDay t * time.secondsPerDay + secondOfDay t
  /\ 0 <= secondOfDay t < time.secondsPerDay.
Proof.
  unfold localDay, secondOfDay.
  assert (H : 0 < time.secondsPerDay) by reflexivity.
  pose proof (Z.div_mod (time.abs t) time.secondsPerDay ltac:(lia)).
  pose proof (Z.mod_pos_bound (time.abs t) _ H). lia.
Qed.

Lemma unixNano_split (t : time.Time) :
  time.unixNano t
  = (time.abs t - time.offsetAt (time.zone t) (time.Unix t)
     - time.unixEpochDay * time.secondsPerDay)
    * 1000000000 + time.nsec t
  /\ 0 <= time.nsec t < 1000000000.
Proof.
  unfold time.abs, time.nsec, time.Unix. cbv zeta.
  pose proof (Z.div_mod (time.unixNano t) 1000000000 ltac:(lia)).
  pose proof (Z.mod_pos_bound (time.unixNano t) 1000000000 ltac:(lia)). lia.
Qed.

(** The three numbers of [Clock] are in range and add up to the second
    of the day. *)
Lemma Clock_spec (t : time.Time) :
  let '(hour, min, sec) := time.Clock t in
  0 <= hour < 24 /\ 0 <= min < 60 /\ 0 <= sec < 60
  /\ hour * 3600 + min * 60 + sec = secondOfDay t.
Proof.
  unfold time.Clock. fold (secondOfDay t).
  destruct (abs_split t) as [_ Hs]. revert Hs.
  generalize (secondOfDay t) as s. intros s Hs.
  change time.secondsPerDay with 86400 in Hs.
  change time.secondsPerHour with 3600.
  change time.secondsPerMinute with 60.
  cbv zeta.
  pose proof (Z.div_mod s 3600 ltac:(lia)).
  pose proof (Z.mod_pos_bound s 3600 ltac:(lia)).
  set (h := s / 3600) in *.
  pose proof (Z.div_mod (s - h * 3600) 60 ltac:(lia)).
  pose proof (Z.mod_pos_bound (s - h * 3600) 60 ltac:(lia)).
  set (m := (s - h * 3600) / 60) in *.
  repeat split; try lia.
Qed.

(** Year, month and day of a time lead back to its local day. *)
Lemma date_spec (t : time.Time) :
  daysOf (time.Year t) (time.Month t) (time.Day t) = localDay t
  /\ 1 <= time.Month t <= 12.
Proof.
  unfold time.Year, time.Month, time.Day, time.date. fold (localDay t).
  pose proof (daysOf_civil (localDay t)) as H.
  destruct (time.civil (localDay t)) as [[y m] d]. exact H.
Qed.

(** [hour]:00:00 on the date of [t]. *)
Lemma Date_of_date (t : time.Time) (hour : Z) :
  0 <= hour < 24 ->
  time.Date (time.Year t) (time.Month t) (time.Day t) hour 0 0 0
            (time.Location t)
  = atHour (localDay t) hour (time.zone t).
Proof.
  intros Hh. destruct (date_spec t) as [Hd Hm].
  rewrite Date_normal by lia. rewrite Hd, Z.add_0_r.
  unfold atHour, time.Location, time.secondsPerHour, time.secondsPerMinute.
  replace (hour * 3600 + 0 * 60 + 0) with (hour * (60 * 60)) by ring.
  reflexivity.
Qed.

(** Adding days keeps the clock and the nanosecond and asks [Date] for
    the day so many days later. *)
Lemma AddDate_days (t : time.Time) (days : Z) :
  time.AddDate t 0 0 days
  = time.mkTime
      (instant (atClock (time.zone t) (localDay t + days) (secondOfDay t))
       + time.nsec t)
      (time.zone t).
Proof.
  unfold time.AddDate.
  pose proof (date_spec t) as [Hd Hm].
  unfold time.Year, time.Month, time.Day in Hd, Hm.
  destruct (time.date t) as [[y m] d]. cbn [fst snd] in Hd, Hm.
  pose proof (Clock_spec t) as Hc.
  destruct (time.Clock t) as [[h mi] s].
  destruct Hc as (Hh & Hmi & Hs & Hsum).
  destruct (unixNano_split t) as [_ Hn].
  rewrite !Z.add_0_r.
  rewrite Date_normal by lia.
  unfold time.Location.
  replace (daysOf y m (d + days)) with (daysOf y m d + days)
    by (unfold daysOf; ring).
  rewrite Hd, Hsum. reflexivity.
Qed.

(** A time given by its second and its nanosecond. *)
Lemma Unix_mkTime (sec nsec : Z) (loc : time.Loc) :
  0 <= nsec < 1000000000 ->
  time.Unix (time.mkTime (sec * 1000000000 + nsec) loc) = sec
  /\ time.nsec (time.mkTime (sec * 1000000000 + nsec) loc) = nsec.
Proof.
  intros Hn. unfold time.Unix, time.nsec. cbn [time.unixNano].
  rewrite Z.add_comm.
  rewrite Z.div_add, Z.mod_add by lia.
  rewrite Z.div_small, Z.mod_small by lia. split; ring.
Qed.

(** When the location resolves a wall clock, the time [Date] returns
    for it, with any nanosecond, shows it. *)
Lemma resolves_shows (loc : time.Loc) (day sec nsec : Z) :
  resolves loc day sec = true ->
  0 <= sec < 86400 -> 0 <= nsec < 1000000000 ->
  let t := time.mkTime (instant (atClock loc day sec) + nsec) loc in
  localDay t = day /\ secondOfDay t = sec /\ time.nsec t = nsec.
Proof.
  intros Hres Hs Hn. cbv zeta.
  unfold resolves in Hres. apply Z.eqb_eq in Hres.
  unfold instant, atClock. cbn [time.unixNano].
  set (u := wallUnix day sec - dateOffset loc day sec) in *.
  destruct (Unix_mkTime u nsec loc Hn) as [HU HN].
  split; [|split]; [| |exact HN];
    unfold localDay, secondOfDay, time.abs; cbv zeta;
    rewrite HU; cbn [time.zone]; rewrite Hres;
    replace (u + dateOffset loc day sec
             + time.unixEpochDay * time.secondsPerDay)
      with (sec + day * time.secondsPerDay)
      by (unfold u, wallUnix; ring);
    change time.secondsPerDay with 86400.
  - rewrite Z.div_add by lia. rewrite Z.div_small by lia. ring.
  - rewrite Z.mod_add by lia. apply Z.mod_small. lia.
Qed.

Lemma atClock_eta (loc : time.Loc) (day sec : Z) :
  time.mkTime (instant (atClock loc day sec) + 0) loc = atClock loc day sec.
Proof. rewrite Z.add_0_r. reflexivity. Qed.

(** The same for a full hour of the day. *)
Lemma resolves_atHour (loc : time.Loc) (day hour : Z) :
  resolves loc day (hour * 3600) = true -> 0 <= hour < 24 ->
  localDay (atHour day hour loc) = day
  /\ secondOfDay (atHour day hour loc) = hour * 3600
  /\ time.nsec (atHour day hour loc) = 0.
Proof.
  intros Hres Hh.
  pose proof (resolves_shows loc day (hour * 3600) 0 Hres ltac:(lia)
                ltac:(lia)) as H.
  cbv zeta in H. rewrite atClock_eta in H. exact H.
Qed.

(** The weekday depends on the local day only. *)
Lemma Weekday_localDay (t : time.Time) :
  time.Weekday t = weekdayOf (localDay t).
Proof.
  unfold time.Weekday, weekdayOf. cbv zeta.
  destruct (abs_split t) as [Ha Hs]. rewrite Ha.
  generalize (localDay t) (secondOfDay t) Hs. clear. intros d s Hs.
  change time.secondsPerDay with 86400 in *.
  change time.Monday with 1.
  replace (d * 86400 + s + 1 * 86400) with (s + (d + 1) * 86400) by ring.
  pose proof (Z.div_mod (d + 1) 7 ltac:(lia)) as Hd.
  pose proof (Z.mod_pos_bound (d + 1) 7 ltac:(lia)) as Hb.
  set (w := (d + 1) mod 7) in *. set (q := (d + 1) / 7) in *.
  replace (s + (d + 1) * 86400) with (s + w * 86400 + q * (7 * 86400)) by lia.
  rewrite Z.mod_add by lia.
  rewrite Z.mod_small by lia.
  rewrite Z.div_add by lia. rewrite Z.div_small by lia. ring.
Qed.

(** The clock of a time at a full hour of its day. *)
Lemma Clock_full_hour (t : time.Time) (hour : Z) :
  0 <= hour < 24 -> secondOfDay t = hour * 3600 ->
  time.Clock t = (hour, 0, 0).
Proof.
  intros Hh Hs. unfold time.Clock. fold (secondOfDay t). rewrite Hs.
  change time.secondsPerHour with 3600.
  change time.secondsPerMinute with 60.
  cbv zeta. rewrite Z.div_mul by lia.
  replace (hour * 3600 - hour * 3600) with 0 by ring.
  reflexivity.
Qed.

(** A fixed zone resolves every wall clock. *)
Lemma FixedZone_resolves (offset day sec : Z) :
  resolves (time.FixedZone offset) day sec = true.
Proof. unfold resolves, dateOffset. cbn. apply Z.eqb_refl. Qed.

End timeFacts.


(* ================================================================== *)
(** ** The workday generator, in closed form *)

Section NextWorkDay.

Import timeFacts.

Variable now : time.Time.
Hypothesis now_calm : calm now = true.

(** What [calm] says, part by part. *)
Lemma calm_six :
  (instant (atHour (localDay now) 18 (time.zone now)) <=? instant now)
  = (18 * 3600 <=? secondOfDay now).
Proof.
  unfold calm in now_calm. cbv zeta in now_calm.
  repeat (apply andb_true_iff in now_calm as [now_calm ?]).
  apply eqb_prop, now_calm.
Qed.

Lemma calm_tomorrow :
  18 * 3600 <= secondOfDay now ->
  resolves (time.zone now) (localDay now + 1) (secondOfDay now) = true.
Proof.
  intros Hlate. unfold calm in now_calm. cbv zeta in now_calm.
  repeat (apply andb_true_iff in now_calm as [now_calm ?]).
  apply Z.leb_le in Hlate.
  match goal with
  | H : (if _ then _ else true) = true |- _ => rewrite Hlate in H; exact H
  end.
Qed.

Lemma calm_candidate :
  resolves (time.zone now) (candidateDay now) (10 * 3600) = true.
Proof.
  unfold calm in now_calm. cbv zeta in now_calm.
  repeat (apply andb_true_iff in now_calm as [now_calm ?]). assumption.
Qed.

Lemma calm_start :
  resolves (time.zone now)
           (candidateDay now + weekendSkip (candidateDay now)) (10 * 3600)
  = true.
Proof.
  unfold calm in now_calm. cbv zeta in now_calm.
  repeat (apply andb_true_iff in now_calm as [now_calm ?]). assumption.
Qed.

Lemma calm_end :
  resolves (time.zone now)
           (candidateDay now + weekendSkip (candidateDay now)) (18 * 3600)
  = true.
Proof.
  unfold calm in now_calm. cbv zeta in now_calm.
  repeat (apply andb_true_iff in now_calm as [now_calm ?]). assumption.
Qed.

(** The time of 10:00 of a day the location resolves, moved by days. *)
Lemma AddDate_atHour (loc : time.Loc) (day hour days : Z) :
  resolves loc day (hour * 3600) = true -> 0 <= hour < 24 ->
  time.AddDate (atHour day hour loc) 0 0 days = atHour (day + days) hour loc.
Proof.
  intros Hres Hh. rewrite AddDate_days.
  destruct (resolves_atHour loc day hour Hres Hh) as (Hd & Hs & Hn).
  rewrite Hd, Hs, Hn. apply atClock_eta.
Qed.

(** The condition of [nextWorkDay], on the clock of [now]. *)
Lemma at_or_after_six :
  let nowAtSix := atHour (localDay now) 18 (time.zone now) in
  time.After now nowAtSix || time.Equal now nowAtSix
  = (18 * 3600 <=? secondOfDay now).
Proof.
  cbv zeta. rewrite <- calm_six. unfold time.After, time.Equal, instant.
  set (a := time.unixNano (atHour (localDay now) 18 (time.zone now))).
  set (b := time.unixNano now).
  destruct (Z.ltb_spec a b), (Z.eqb_spec b a), (Z.leb_spec a b);
    cbn [orb]; try reflexivity; lia.
Qed.

(** [nextWorkDay] returns the workday of the candidate day, moved out of
    the weekend. *)
Lemma nextWorkDay_closed :
  nextWorkDay now
  = workday (candidateDay now + weekendSkip (candidateDay now))
            (time.zone now).
Proof.
  unfold nextWorkDay.
  rewrite !(Date_of_date now) by lia.
  rewrite at_or_after_six.
  assert (Hstart :
    (if 18 * 3600 <=? secondOfDay now
     then
       time.Date (time.Year (time.AddDate now 0 0 1))
                 (time.Month (time.AddDate now 0 0 1))
                 (time.Day (time.AddDate now 0 0 1)) 10 0 0 0
                 (time.Location (time.AddDate now 0 0 1))
     else atHour (localDay now) 10 (time.zone now))
    = atHour (candidateDay now) 10 (time.zone now)).
  { unfold candidateDay.
    destruct (Z.leb_spec (18 * 3600) (secondOfDay now)) as [Hlate|Hearly];
      [|reflexivity].
    rewrite Date_of_date by lia. rewrite AddDate_days.
    destruct (abs_split now) as [_ Hs].
    destruct (unixNano_split now) as [_ Hn].
    change time.secondsPerDay with 86400 in Hs.
    destruct (resolves_shows _ _ _ _ (calm_tomorrow Hlate) Hs Hn)
      as (Hd & _ & _).
    cbv zeta in Hd. rewrite Hd. reflexivity. }
  rewrite Hstart. clear Hstart.
  set (z := time.zone now). set (D := candidateDay now).
  pose proof calm_candidate as Hc. fold z D in Hc.
  destruct (resolves_atHour z D 10 Hc ltac:(lia)) as (HD & _ & _).
  rewrite Weekday_localDay, HD.
  rewrite !(AddDate_atHour z D 10) by (assumption || lia).
  assert (Hmoved :
    (if weekdayOf D =? time.Saturday then atHour (D + 2) 10 z
     else if weekdayOf D =? time.Sunday then atHour (D + 1) 10 z
     else atHour D 10 z)
    = atHour (D + weekendSkip D) 10 z).
  { unfold weekendSkip.
    destruct (weekdayOf D =? time.Saturday); [reflexivity|].
    destruct (weekdayOf D =? time.Sunday); [reflexivity|].
    now rewrite Z.add_0_r. }
  rewrite Hmoved. clear Hmoved.
  rewrite Date_of_date by lia.
  pose proof calm_start as Hs. fold z D in Hs.
  destruct (resolves_atHour z (D + weekendSkip D) 10 Hs ltac:(lia))
    as (HD' & _ & _).
  rewrite HD'. reflexivity.
Qed.

End NextWorkDay.

(* ================================================================== *)
(** ** Properties of [split] and [After] *)

Section RangeFacts.

Variable r : Range.
Variables s e : time.Time.

(** The two guards of [split] are the negation of [overlaps]. *)
Lemma split_guards :
  split r s e
  = if (instant e <=? instant (Start r)) || (instant (End r) <=? instant s)
    then [r]
    else (if strictlyInside s r then [leftRemainder r s] else [])
         ++ (if strictlyInside e r then [rightRemainder r e] else []).
Proof.
  unfold split, strictlyInside, leftRemainder, rightRemainder,
    time.After, time.Before, time.Equal, instant.
  set (rs := time.unixNano (Start r)). set (re := time.unixNano (End r)).
  set (ts := time.unixNano s). set (te := time.unixNano e).
  destruct (te <? rs) eqn:E1, (rs =? te) eqn:E2, (te <=? rs) eqn:E3;
    cbn [orb]; try reflexivity; try lia.
  destruct (re <? ts) eqn:E4, (re =? ts) eqn:E5, (re <=? ts) eqn:E6;
    cbn [orb]; try reflexivity; try lia.
  destruct ((rs <? ts) && (ts <? re)), ((rs <? te) && (te <? re));
    reflexivity.
Qed.

Lemma split_disjoint :
  ~ overlaps r s e -> split r s e = [r].
Proof.
  intros H. rewrite split_guards. unfold overlaps in H.
  destruct (instant e <=? instant (Start r)) eqn:E1; [reflexivity|].
  destruct (instant (End r) <=? instant s) eqn:E2; [reflexivity|].
  apply Z.leb_gt in E1, E2. lia.
Qed.

Lemma split_overlapping :
  overlaps r s e ->
  split r s e
  = (if strictlyInside s r then [leftRemainder r s] else [])
    ++ (if strictlyInside e r then [rightRemainder r e] else []).
Proof.
  intros [H1 H2]. rewrite split_guards.
  destruct (instant e <=? instant (Start r)) eqn:E1; [apply Z.leb_le in E1; lia|].
  destruct (instant (End r) <=? instant s) eqn:E2; [apply Z.leb_le in E2; lia|].
  reflexivity.
Qed.

Lemma strictlyInside_spec (t : time.Time) :
  strictlyInside t r = true
  <-> instant (Start r) < instant t < instant (End r).
Proof.
  unfold strictlyInside. rewrite andb_true_iff, !Z.ltb_lt. tauto.
Qed.

(** A range [split] returns is the receiver, returned by a guard, or a
    remainder, of positive length. *)
Lemma split_piece_cases (x : Range) :
  In x (split r s e) -> (x = r /\ ~ overlaps r s e) \/ positive x.
Proof.
  rewrite split_guards.
  destruct ((instant e <=? instant (Start r))
            || (instant (End r) <=? instant s)) eqn:G.
  - intros [<-|[]]. left. split; [reflexivity|].
    unfold overlaps. apply orb_true_iff in G as [G|G];
      apply Z.leb_le in G; lia.
  - unfold leftRemainder, rightRemainder. intros Hin. right.
    destruct (strictlyInside s r) eqn:Es, (strictlyInside e r) eqn:Ee;
      try apply strictlyInside_spec in Es;
      try apply strictlyInside_spec in Ee;
      cbn [app In] in Hin;
      repeat match goal with
      | H : _ \/ _ |- _ => destruct H
      | H : False |- _ => destruct H
      end; subst x;
      unfold positive, Start, End in *; cbn [start end_] in *; lia.
Qed.

End RangeFacts.

(** Ranges that share an instant overlap. *)
Lemma covers_rangesOverlap (a b : Range) (i : Z) :
  covers a i -> covers b i -> rangesOverlap a b.
Proof.
  unfold covers, rangesOverlap, overlaps. lia.
Qed.

(** Ranges of positive length that overlap share an instant. *)
Lemma rangesOverlap_covers (a b : Range) :
  positive a -> positive b -> rangesOverlap a b ->
  exists i, covers a i /\ covers b i.
Proof.
  unfold positive, rangesOverlap, overlaps, covers. intros Ha Hb [H1 H2].
  exists (Z.max (instant (Start a)) (instant (Start b))). lia.
Qed.

(* ================================================================== *)
(** ** The claims on [split] and [After] *)

(** C1.  When the splitter [s, e) overlaps [r], [split] returns the left
    remainder [Start r, s), present exactly when [s] is strictly after
    the start and strictly before the end of [r], followed by the right
    remainder [e, End r), present exactly when [e] is strictly after the
    start and strictly before the end of [r]. *)
Theorem split_remainders (r : Range) (s e : time.Time) :
  overlaps r s e ->
  split r s e
  = (if strictlyInside s r then [leftRemainder r s] else [])
    ++ (if strictlyInside e r then [rightRemainder r e] else [])
  /\ (In (leftRemainder r s) (split r s e) <-> strictlyInside s r = true)
  /\ (In (rightRemainder r e) (split r s e) <-> strictlyInside e r = true).
Proof.
  intros Hov. pose proof (split_overlapping r s e Hov) as Heq.
  split; [exact Heq|]. rewrite Heq. destruct Hov as [H1 H2].
  unfold leftRemainder, rightRemainder.
  destruct (strictlyInside s r) eqn:Es, (strictlyInside e r) eqn:Ee;
    cbn [app In]; repeat split; intros H; try reflexivity; auto;
    try discriminate;
    repeat match goal with
    | H : _ \/ _ |- _ => destruct H
    | H : False |- _ => destruct H
    end;
    try (apply strictlyInside_spec in Ee);
    try (apply strictlyInside_spec in Es);
    match goal with
    | H : mkRange _ _ = mkRange _ _ |- _ =>
        injection H as Ha Hb;
        first [ rewrite Ha in * | rewrite <- Ha in * | idtac ];
        first [ rewrite Hb in * | rewrite <- Hb in * | idtac ]; lia
    end.
Qed.

Lemma split_remainders_witness :
  let r := mkRange (time.mkTime 10 0) (time.mkTime 18 0) in
  split r (time.mkTime 12 0) (time.mkTime 13 0)
  = [mkRange (time.mkTime 10 0) (time.mkTime 12 0);
     mkRange (time.mkTime 13 0) (time.mkTime 18 0)].
Proof.
  cbv zeta.
  refine (proj1 (split_remainders
            (mkRange (time.mkTime 10 0) (time.mkTime 18 0))
            (time.mkTime 12 0) (time.mkTime 13 0) _)).
  unfold overlaps, instant. simpl. lia.
Defined.

(** C2.  If [s] is at or after the end of [r], or [e] at or before its
    start, [split] returns [r] alone and unchanged. *)
Theorem split_disjoint_noop (r : Range) (s e : time.Time) :
  instant (End r) <= instant s \/ instant e <= instant (Start r) ->
  split r s e = [r].
Proof.
  intros H. apply split_disjoint. unfold overlaps. lia.
Qed.

Lemma split_disjoint_noop_witness :
  let r := mkRange (time.mkTime 10 0) (time.mkTime 18 0) in
  split r (time.mkTime 18 0) (time.mkTime 19 0) = [r]
  /\ split r (time.mkTime 9 3600) (time.mkTime 10 3600) = [r].
Proof.
  cbv zeta. split.
  - apply (split_disjoint_noop
             (mkRange (time.mkTime 10 0) (time.mkTime 18 0))
             (time.mkTime 18 0) (time.mkTime 19 0)).
    left. unfold instant. simpl. lia.
  - apply (split_disjoint_noop
             (mkRange (time.mkTime 10 0) (time.mkTime 18 0))
             (time.mkTime 9 3600) (time.mkTime 10 3600)).
    right. unfold instant. simpl. lia.
Defined.

(** C3, as stated, fails: a zero-length range whose instant is the end
    (or the start) of the splitter is covered by it, yet the guard on
    touching endpoints returns it unchanged. *)
Lemma split_full_cover_fails_on_zero_length :
  ~ (forall (r : Range) (s e : time.Time),
       wellFormed r ->
       instant s <= instant (Start r) -> instant (End r) <= instant e ->
       split r s e = []).
Proof.
  intros H.
  specialize (H (mkRange (time.mkTime 5 0) (time.mkTime 5 0))
                (time.mkTime 0 0) (time.mkTime 5 0)).
  unfold wellFormed, instant in H. simpl in H.
  specialize (H ltac:(lia) ltac:(lia) ltac:(lia)). discriminate H.
Qed.

(** C3, amended.  Let [s] be at or before the start of [r] and [e] at or
    after its end.  If [r] has positive length, or if [s] is strictly
    before and [e] strictly after the instant of a zero-length [r],
    [split] returns the empty sequence; a zero-length [r] whose instant
    is [s] or [e] is returned unchanged. *)
Theorem split_full_cover (r : Range) (s e : time.Time) :
  instant s <= instant (Start r) -> instant (End r) <= instant e ->
  (positive r -> split r s e = [])
  /\ (instant s < instant (End r) -> instant (Start r) < instant e ->
      split r s e = [])
  /\ (instant (Start r) = instant (End r) ->
      instant e = instant (Start r) \/ instant s = instant (End r) ->
      split r s e = [r]).
Proof.
  intros Hs He.
  assert (Hcov : instant s < instant (End r) ->
                 instant (Start r) < instant e -> split r s e = []).
  { intros H1 H2. rewrite split_overlapping by (split; assumption).
    destruct (strictlyInside s r) eqn:Es;
      [apply strictlyInside_spec in Es; lia|].
    destruct (strictlyInside e r) eqn:Ee;
      [apply strictlyInside_spec in Ee; lia|].
    reflexivity. }
  split; [|split].
  - unfold positive. intros Hp. apply Hcov; lia.
  - exact Hcov.
  - intros Hz Ht. apply split_disjoint. unfold overlaps. lia.
Qed.

Lemma split_full_cover_witness :
  split (mkRange (time.mkTime 10 0) (time.mkTime 18 0))
        (time.mkTime 9 0) (time.mkTime 19 0) = []
  /\ split (mkRange (time.mkTime 5 0) (time.mkTime 5 0))
           (time.mkTime 0 0) (time.mkTime 5 0)
     = [mkRange (time.mkTime 5 0) (time.mkTime 5 0)].
Proof.
  split.
  - refine (proj1 (split_full_cover
              (mkRange (time.mkTime 10 0) (time.mkTime 18 0))
              (time.mkTime 9 0) (time.mkTime 19 0) _ _) _);
      unfold positive, instant; simpl; lia.
  - refine (proj2 (proj2 (split_full_cover
              (mkRange (time.mkTime 5 0) (time.mkTime 5 0))
              (time.mkTime 0 0) (time.mkTime 5 0) _ _)) _ _);
      unfold instant; simpl; lia.
Defined.

(** C4.  For a splitter interval [s, e), that is with [s] at or before
    [e], the ranges [split] returns do not overlap one another and each
    lies within [r]. *)
Theorem split_pieces_disjoint_within (r : Range) (s e : time.Time) :
  instant s <= instant e ->
  ForallOrdPairs (fun a b => ~ rangesOverlap a b) (split r s e)
  /\ Forall (fun x => within x r) (split r s e).
Proof.
  intros Hse. rewrite split_guards.
  destruct ((instant e <=? instant (Start r))
            || (instant (End r) <=? instant s)).
  - split.
    + constructor; [constructor | constructor].
    + constructor; [unfold within; lia | constructor].
  - unfold leftRemainder, rightRemainder.
    destruct (strictlyInside s r) eqn:Es, (strictlyInside e r) eqn:Ee;
      try apply strictlyInside_spec in Es;
      try apply strictlyInside_spec in Ee;
      cbn [app]; split;
      repeat first
        [ apply FOP_nil | apply FOP_cons | apply Forall_nil
        | apply Forall_cons ];
      unfold within, rangesOverlap, overlaps, Start, End in *;
      cbn [start end_] in *; lia.
Qed.

Lemma split_pieces_disjoint_within_witness :
  let r := mkRange (time.mkTime 10 0) (time.mkTime 18 0) in
  let pieces := split r (time.mkTime 12 0) (time.mkTime 13 0) in
  ForallOrdPairs (fun a b => ~ rangesOverlap a b) pieces
  /\ Forall (fun x => within x r) pieces.
Proof.
  cbv zeta.
  apply (split_pieces_disjoint_within
           (mkRange (time.mkTime 10 0) (time.mkTime 18 0))
           (time.mkTime 12 0) (time.mkTime 13 0)).
  unfold instant. simpl. lia.
Defined.

(** The hypothesis of C4 is needed: a splitter that ends before it
    starts leaves two pieces that overlap. *)
Lemma split_reversed_splitter_overlap :
  let r := mkRange (time.mkTime 0 0) (time.mkTime 10 0) in
  let a := mkRange (time.mkTime 0 0) (time.mkTime 7 0) in
  let b := mkRange (time.mkTime 3 0) (time.mkTime 10 0) in
  split r (time.mkTime 7 0) (time.mkTime 3 0) = [a; b]
  /\ rangesOverlap a b.
Proof.
  cbv zeta. split; [reflexivity|].
  unfold rangesOverlap, overlaps, instant. simpl. lia.
Qed.

(** C5.  [After] on a range that does not end before it starts: a
    zero-length range at the end of [r] when [t] is after that end, [r]
    itself when [t] is before its start, and the range from [t] to the
    end of [r] otherwise, in particular when [t] lies inside [r]. *)
Theorem After_cases (r : Range) (t : time.Time) :
  wellFormed r ->
  (instant (End r) < instant t -> After r t = mkRange (End r) (End r))
  /\ (instant t < instant (Start r) -> After r t = r)
  /\ (instant (Start r) <= instant t <= instant (End r) ->
      After r t = mkRange t (End r)).
Proof.
  unfold wellFormed, After, time.After, time.Before, instant. intros Hwf.
  repeat split; intros H.
  - destruct (Z.ltb_spec (time.unixNano (End r)) (time.unixNano t));
      [reflexivity | lia].
  - destruct (Z.ltb_spec (time.unixNano (End r)) (time.unixNano t)); [lia|].
    destruct (Z.ltb_spec (time.unixNano t) (time.unixNano (Start r)));
      [reflexivity | lia].
  - destruct (Z.ltb_spec (time.unixNano (End r)) (time.unixNano t)); [lia|].
    destruct (Z.ltb_spec (time.unixNano t) (time.unixNano (Start r)));
      [lia | reflexivity].
Qed.

Lemma After_cases_witness :
  let r := mkRange (time.mkTime 10 0) (time.mkTime 18 0) in
  After r (time.mkTime 19 0) = mkRange (time.mkTime 18 0) (time.mkTime 18 0)
  /\ After r (time.mkTime 9 0) = r
  /\ After r (time.mkTime 12 0) = mkRange (time.mkTime 12 0) (time.mkTime 18 0).
Proof.
  cbv zeta.
  pose proof (After_cases (mkRange (time.mkTime 10 0) (time.mkTime 18 0)))
    as H.
  unfold wellFormed, instant in H. simpl in H.
  split; [|split].
  - apply (H (time.mkTime 19 0)); simpl; lia.
  - apply (H (time.mkTime 9 0)); simpl; lia.
  - apply (H (time.mkTime 12 0)); simpl; lia.
Defined.

(** C10.  Every range [split] returns is [r] itself, returned by a guard
    because the splitter does not overlap it, or has its end strictly
    after its start; from a range of positive length [split] returns
    ranges of positive length only. *)
Theorem split_no_new_zero_length (r : Range) (s e : time.Time) :
  Forall (fun x => (x = r /\ ~ overlaps r s e) \/ positive x) (split r s e)
  /\ (positive r -> Forall positive (split r s e)).
Proof.
  split.
  - apply Forall_forall. intros x Hin. apply split_piece_cases, Hin.
  - intros Hr. apply Forall_forall. intros x Hin.
    destruct (split_piece_cases r s e x Hin) as [[-> _]|Hp]; assumption.
Qed.

Lemma split_no_new_zero_length_witness :
  let r := mkRange (time.mkTime 10 0) (time.mkTime 18 0) in
  Forall positive (split r (time.mkTime 12 0) (time.mkTime 18 0)).
Proof.
  cbv zeta.
  apply (proj2 (split_no_new_zero_length
                  (mkRange (time.mkTime 10 0) (time.mkTime 18 0))
                  (time.mkTime 12 0) (time.mkTime 18 0))).
  unfold positive, instant. simpl. lia.
Defined.

(** A zero-length range in the result of [split] is the receiver. *)
Corollary split_zero_length_is_receiver (r x : Range) (s e : time.Time) :
  In x (split r s e) -> instant (Start x) = instant (End x) -> x = r.
Proof.
  intros Hin Hz.
  destruct (split_piece_cases r s e x Hin) as [[Hx _]|Hp].
  - exact Hx.
  - unfold positive in Hp. lia.
Qed.

(* ================================================================== *)
(** ** The reduction *)

Lemma append_one_by_one (pieces acc : list Range) :
  fold_left (fun newRanges split => newRanges ++ [split]) pieces acc
  = acc ++ pieces.
Proof.
  revert acc. induction pieces as [|p pieces IH]; intros acc; cbn.
  - now rewrite app_nil_r.
  - rewrite IH, <- app_assoc. reflexivity.
Qed.

Lemma subtract_from (freeRanges acc : list Range) (s e : time.Time) :
  fold_left
    (fun newRanges r =>
       let splitRange := split r s e in
       fold_left (fun newRanges split => newRanges ++ [split])
                 splitRange newRanges)
    freeRanges acc
  = acc ++ flat_map (fun r => split r s e) freeRanges.
Proof.
  revert acc. induction freeRanges as [|r rs IH]; intros acc; cbn.
  - now rewrite app_nil_r.
  - rewrite IH, append_one_by_one, <- app_assoc. reflexivity.
Qed.

(** The loops of the reduction flat-map [split] over the free ranges. *)
Lemma subtract_flat_map (freeRanges : list Range) (s e : time.Time) :
  subtract freeRanges s e = flat_map (fun r => split r s e) freeRanges.
Proof. unfold subtract. now rewrite subtract_from. Qed.

(** With both strings parsed, an iteration on an event that has a start
    [DateTime] is [subtract]. *)
Lemma reduceStep_subtract (Parse : string -> option time.Time)
    (freeRanges : list Range) (event : Event) (s e : time.Time) :
  StartDateTime event <> EmptyString ->
  Parse (StartDateTime event) = Some s ->
  Parse (EndDateTime event) = Some e ->
  reduceStep Parse freeRanges event = Some (subtract freeRanges s e).
Proof.
  intros Hne Hs He. unfold reduceStep, subtract.
  apply String.eqb_neq in Hne. rewrite Hne, Hs, He.
  rewrite subtract_from.
  assert (Hacc : forall acc,
    fold_left
      (fun acc r =>
         match acc with
         | None => None
         | Some newRanges =>
             let splitRange := split r s e in
             Some (fold_left (fun newRanges split => newRanges ++ [split])
                             splitRange newRanges)
         end)
      freeRanges (Some acc)
    = Some (acc ++ flat_map (fun r => split r s e) freeRanges)).
  { induction freeRanges as [|r rs IH]; intros acc; cbn.
    - now rewrite app_nil_r.
    - rewrite IH, append_one_by_one, <- app_assoc. reflexivity. }
  apply Hacc.
Qed.

(** C9.  When the busy interval [s, e) overlaps none of the free ranges,
    flat-mapping [split] over them, as the loops of the reduction do,
    gives the list back. *)
Theorem subtract_disjoint_event (freeRanges : list Range) (s e : time.Time) :
  Forall (fun r => ~ overlaps r s e) freeRanges ->
  flat_map (fun r => split r s e) freeRanges = freeRanges
  /\ subtract freeRanges s e = freeRanges.
Proof.
  intros H. rewrite subtract_flat_map.
  assert (Hfm : flat_map (fun r => split r s e) freeRanges = freeRanges).
  { induction H as [|r rs Hr _ IH]; cbn; [reflexivity|].
    rewrite (split_disjoint r s e Hr), IH. reflexivity. }
  split; exact Hfm.
Qed.

Lemma subtract_disjoint_event_witness :
  let day1 := mkRange (time.mkTime 10 0) (time.mkTime 18 0) in
  let day2 := mkRange (time.mkTime 34 0) (time.mkTime 42 0) in
  subtract [day1; day2] (time.mkTime 18 0) (time.mkTime 34 0) = [day1; day2].
Proof.
  cbv zeta.
  refine (proj2 (subtract_disjoint_event _ (time.mkTime 18 0)
                   (time.mkTime 34 0) _)).
  repeat constructor; unfold overlaps, instant; simpl; lia.
Defined.


(* ================================================================== *)
(** ** The claims on [nextWorkDay] *)

Lemma weekdayOf_succ (day : Z) :
  weekdayOf (day + 1) = (weekdayOf day + 1) mod 7.
Proof.
  unfold weekdayOf. rewrite Zplus_mod_idemp_l. reflexivity.
Qed.

Lemma weekdayOf_range (day : Z) : 0 <= weekdayOf day < 7.
Proof. unfold weekdayOf. apply Z.mod_pos_bound. lia. Qed.

(** Moving out of the weekend leads to a day from Monday to Friday. *)
Lemma weekendSkip_weekday (day : Z) :
  time.Monday <= weekdayOf (day + weekendSkip day) <= time.Friday.
Proof.
  unfold weekendSkip, time.Monday, time.Friday, time.Saturday, time.Sunday.
  pose proof (weekdayOf_range day) as Hr.
  destruct (Z.eqb_spec (weekdayOf day) 6) as [E|E].
  - replace (day + 2) with (day + 1 + 1) by ring.
    rewrite !weekdayOf_succ, E. cbn. lia.
  - destruct (Z.eqb_spec (weekdayOf day) 0) as [E0|E0].
    + rewrite weekdayOf_succ, E0. cbn. lia.
    + rewrite Z.add_0_r. lia.
Qed.

(** Before 18:00 the workday of the same day is returned, once moved out
    of the weekend. *)
Lemma nextWorkDay_before_six (now : time.Time) :
  calm now = true ->
  secondOfDay now < 18 * 3600 ->
  nextWorkDay now
  = workday (localDay now + weekendSkip (localDay now)) (time.zone now).
Proof.
  intros Hcalm H. rewrite nextWorkDay_closed by exact Hcalm.
  unfold candidateDay.
  destruct (Z.leb_spec (18 * 3600) (secondOfDay now)); [lia | reflexivity].
Qed.

(** From 18:00 on the candidate is the next day. *)
Lemma nextWorkDay_from_six (now : time.Time) :
  calm now = true ->
  18 * 3600 <= secondOfDay now ->
  nextWorkDay now
  = workday (localDay now + 1 + weekendSkip (localDay now + 1))
            (time.zone now).
Proof.
  intros Hcalm H. rewrite nextWorkDay_closed by exact Hcalm.
  unfold candidateDay.
  destruct (Z.leb_spec (18 * 3600) (secondOfDay now)); [reflexivity | lia].
Qed.

(** A fixed zone plays no trick. *)
Lemma FixedZone_six (now : time.Time) (offset : Z) :
  time.zone now = time.FixedZone offset ->
  (instant (atHour (localDay now) 18 (time.zone now)) <=? instant now)
  = (18 * 3600 <=? secondOfDay now).
Proof.
  intros Hz.
  destruct (timeFacts.unixNano_split now) as [Hu Hn].
  destruct (timeFacts.abs_split now) as [Ha Hs].
  rewrite Hz in *. cbn [time.offsetAt time.FixedZone] in Hu.
  unfold instant, atHour, atClock, dateOffset, wallUnix.
  cbn [time.unixNano time.offsetAt time.FixedZone].
  rewrite Hu, Ha.
  change time.secondsPerDay with 86400 in *.
  change time.secondsPerHour with 3600.
  destruct (Z.leb_spec (18 * 3600) (secondOfDay now));
    [apply Z.leb_le | apply Z.leb_gt]; lia.
Qed.

Lemma FixedZone_calm (now : time.Time) (offset : Z) :
  time.zone now = time.FixedZone offset -> calm now = true.
Proof.
  intros Hz. unfold calm. cbv zeta.
  rewrite (FixedZone_six now offset Hz), Hz.
  rewrite !timeFacts.FixedZone_resolves.
  destruct (18 * 3600 <=? secondOfDay now); reflexivity.
Qed.

Lemma FixedZone_narrow (offset : Z) : narrow (time.FixedZone offset).
Proof. intros u v. cbn. lia. Qed.

Lemma Chicago2017_narrow : narrow Chicago2017.
Proof.
  intros u v. cbn.
  destruct (1489305600 <=? u), (1509865200 <=? u), (1489305600 <=? v),
    (1509865200 <=? v); lia.
Qed.

(** C6.  A reference at 18:00:00 of its local day, in a location that
    plays no trick at that time, is after hours: the candidate is the
    next day, moved by 2 days when it is a Saturday and by 1 day when it
    is a Sunday.  For a reference on a Friday the result is the workday
    three days later, a Monday, from 10:00 to 18:00 of that same day. *)
Theorem nextWorkDay_at_six (now : time.Time) :
  time.Clock now = (18, 0, 0) ->
  calm now = true ->
  let next := localDay now + 1 in
  nextWorkDay now = workday (next + weekendSkip next) (time.zone now)
  /\ (time.Weekday now = time.Friday ->
      let monday := nextWorkDay now in
      monday = workday (localDay now + 3) (time.zone now)
      /\ time.Weekday (Start monday) = time.Monday
      /\ time.Clock (Start monday) = (10, 0, 0)
      /\ time.Clock (End monday) = (18, 0, 0)
      /\ localDay (Start monday) = localDay now + 3
      /\ time.date (End monday) = time.date (Start monday)).
Proof.
  intros Hclock Hcalm. cbv zeta.
  pose proof (timeFacts.Clock_spec now) as Hc. rewrite Hclock in Hc.
  destruct Hc as (_ & _ & _ & Hsod).
  assert (Hcand : candidateDay now = localDay now + 1).
  { unfold candidateDay.
    destruct (Z.leb_spec (18 * 3600) (secondOfDay now)); [reflexivity|lia]. }
  assert (Hroll : nextWorkDay now
                  = workday (localDay now + 1 + weekendSkip (localDay now + 1))
                            (time.zone now))
    by (apply nextWorkDay_from_six; [exact Hcalm | lia]).
  split; [exact Hroll|]. intros Hfri.
  rewrite timeFacts.Weekday_localDay in Hfri.
  assert (Hskip : weekendSkip (localDay now + 1) = 2).
  { unfold weekendSkip. rewrite weekdayOf_succ, Hfri. reflexivity. }
  pose proof (calm_start now Hcalm) as Hs10.
  pose proof (calm_end now Hcalm) as Hs18.
  rewrite Hcand, Hskip in Hs10, Hs18.
  replace (localDay now + 1 + 2) with (localDay now + 3) in Hs10, Hs18
    by ring.
  rewrite Hroll, Hskip.
  replace (localDay now + 1 + 2) with (localDay now + 3) by ring.
  destruct (timeFacts.resolves_atHour _ _ 10 Hs10 ltac:(lia))
    as (Hd10 & Hc10 & _).
  destruct (timeFacts.resolves_atHour _ _ 18 Hs18 ltac:(lia))
    as (Hd18 & Hc18 & _).
  unfold workday, Start, End. cbn [start end_].
  repeat split.
  - rewrite timeFacts.Weekday_localDay, Hd10.
    replace (localDay now + 3) with (localDay now + 1 + 1 + 1) by ring.
    rewrite !weekdayOf_succ, Hfri. reflexivity.
  - apply timeFacts.Clock_full_hour; [lia | exact Hc10].
  - apply timeFacts.Clock_full_hour; [lia | exact Hc18].
  - exact Hd10.
  - unfold time.date.
    fold (localDay (atHour (localDay now + 3) 18 (time.zone now))).
    fold (localDay (atHour (localDay now + 3) 10 (time.zone now))).
    rewrite Hd10, Hd18. reflexivity.
Qed.

(** Friday 2017-03-10 at 18:00 in Chicago, two days before the clocks
    go forward: the workday of Monday 2017-03-13, which starts at
    15:00:00 UTC. *)
Lemma nextWorkDay_at_six_witness :
  let now := time.Date 2017 3 10 18 0 0 0 Chicago2017 in
  nextWorkDay now
  = mkRange (time.Date 2017 3 13 10 0 0 0 Chicago2017)
            (time.Date 2017 3 13 18 0 0 0 Chicago2017)
  /\ time.Unix (Start (nextWorkDay now)) = 1489417200.
Proof.
  cbv zeta.
  pose proof (nextWorkDay_at_six (time.Date 2017 3 10 18 0 0 0 Chicago2017)
                ltac:(reflexivity) ltac:(reflexivity)) as H.
  cbv zeta in H. destruct H as [_ H].
  specialize (H ltac:(reflexivity)). destruct H as [H _].
  rewrite H. split; reflexivity.
Defined.

(** Offsets that differ by less than six hours leave the end of a
    workday after its start. *)
Lemma workday_positive (day : Z) (loc : time.Loc) :
  narrow loc -> positive (workday day loc).
Proof.
  intros Hn.
  unfold positive, workday, atHour, atClock, instant, Start, End.
  cbn [start end_ time.unixNano].
  unfold dateOffset, wallUnix. cbv zeta.
  change time.secondsPerHour with 3600.
  match goal with
  | |- (_ - time.offsetAt loc ?u) * _ < (_ - time.offsetAt loc ?v) * _ =>
      pose proof (Hn v u)
  end.
  lia.
Qed.

Lemma workday_wellFormed (day : Z) (loc : time.Loc) :
  narrow loc -> wellFormed (workday day loc).
Proof.
  intros Hn. pose proof (workday_positive day loc Hn) as H.
  unfold positive in H. unfold wellFormed. lia.
Qed.

(** C8.  In a location that plays no trick at [now] and whose offsets
    differ by less than six hours, the range [nextWorkDay] returns
    does not end before it starts; [split] and [After] on a range that
    does not end before it starts return such ranges only. *)
Theorem ranges_wellFormed (now : time.Time) (r : Range) (s e t : time.Time) :
  (calm now = true -> narrow (time.zone now) -> wellFormed (nextWorkDay now))
  /\ (wellFormed r ->
      Forall wellFormed (split r s e) /\ wellFormed (After r t)).
Proof.
  split.
  - intros Hcalm Hn. rewrite nextWorkDay_closed by exact Hcalm.
    apply workday_wellFormed, Hn.
  - intros Hwf. split.
    + apply Forall_forall. intros x Hin.
      destruct (split_piece_cases r s e x Hin) as [[-> _]|Hp]; [exact Hwf|].
      unfold positive in Hp. unfold wellFormed. lia.
    + unfold After, time.After, time.Before, wellFormed, instant in *.
      destruct (Z.ltb_spec (time.unixNano (End r)) (time.unixNano t)).
      * unfold Start, End. cbn [start end_]. lia.
      * destruct (Z.ltb_spec (time.unixNano t) (time.unixNano (Start r))).
        -- exact Hwf.
        -- unfold Start, End in *. cbn [start end_]. lia.
Qed.

Lemma ranges_wellFormed_witness :
  let now := time.Date 2017 3 10 18 0 0 0 Chicago2017 in
  let r := mkRange (time.mkTime 10 0) (time.mkTime 18 0) in
  wellFormed (nextWorkDay now)
  /\ Forall wellFormed (split r (time.mkTime 12 0) (time.mkTime 13 0))
  /\ wellFormed (After r (time.mkTime 19 0)).
Proof.
  cbv zeta.
  pose proof (ranges_wellFormed
                (time.Date 2017 3 10 18 0 0 0 Chicago2017)
                (mkRange (time.mkTime 10 0) (time.mkTime 18 0))
                (time.mkTime 12 0) (time.mkTime 13 0) (time.mkTime 19 0))
    as [Hday Hops].
  split.
  - apply Hday; [reflexivity | exact Chicago2017_narrow].
  - apply Hops. unfold wellFormed, instant. simpl. lia.
Defined.

(* ================================================================== *)
(** ** The claim on the pruning loop *)

Section Prune.

Variable round : Q -> Q.
Hypothesis round_ok : roundsToFloat64 round.

Lemma round_le (x y : Q) : (x <= y)%Q -> (round x <= round y)%Q.
Proof. apply (proj1 round_ok). Qed.

Lemma round_exact (q : Q) : float64Value q -> (round q == q)%Q.
Proof. apply (proj2 round_ok). Qed.

(** Integers of at most 53 bits are values of float64. *)
Lemma float64Value_int (n : Z) : Z.abs n <= 2 ^ 53 -> float64Value (inject_Z n).
Proof.
  intros H. exists n, 0. repeat split; try lia.
  cbn. now rewrite Qmult_1_r.
Qed.

(** So are the multiples of [2^-36] of at most 53 bits. *)
Lemma float64Value_36 (m : Z) :
  Z.abs m <= 2 ^ 53 -> float64Value (m # 2 ^ 36).
Proof.
  intros H. exists m, (-36). repeat split; try lia.
  unfold Qeq. cbn. lia.
Qed.

Lemma round_int (n : Z) :
  Z.abs n <= 2 ^ 53 -> (round (inject_Z n) == inject_Z n)%Q.
Proof. intros H. apply round_exact, float64Value_int, H. Qed.

Lemma round_eq (x y : Q) : (x == y)%Q -> (round x == round y)%Q.
Proof.
  intros H. apply Qle_antisym; apply round_le; rewrite H; apply Qle_refl.
Qed.

(** The rounded quotient of the nanoseconds by a minute, for a remainder
    [nsec] of the division by [Minute]. *)
Lemma round_fraction (nsec : Z) :
  - time.Minute < nsec < time.Minute ->
  (round (round (inject_Z nsec) / round (inject_Z (60 * 1000000000)))
   == round (inject_Z nsec / inject_Z (60 * 1000000000)))%Q.
Proof.
  intros H. change time.Minute with 60000000000 in H.
  apply round_eq. rewrite !round_int by (cbn; lia). reflexivity.
Qed.

Lemma fraction_nonneg (nsec : Z) :
  0 <= nsec ->
  (0 <= round (inject_Z nsec / inject_Z (60 * 1000000000)))%Q.
Proof.
  intros H.
  assert (H0 : (round 0 == 0)%Q) by (apply (round_int 0); cbn; lia).
  rewrite <- H0. apply round_le.
  unfold Qle, Qdiv, Qmult, Qinv. cbn. lia.
Qed.

Lemma fraction_below_one (nsec : Z) :
  nsec < time.Minute ->
  (round (inject_Z nsec / inject_Z (60 * 1000000000))
   <= (2 ^ 36 - 1) # 2 ^ 36)%Q.
Proof.
  intros H. change time.Minute with 60000000000 in H.
  rewrite <- (round_exact ((2 ^ 36 - 1) # 2 ^ 36))
    by (apply float64Value_36; cbn; lia).
  apply round_le.
  unfold Qle, Qdiv, Qmult, Qinv. cbn. lia.
Qed.

(** Quotient and remainder of a duration by a minute. *)
Lemma quot_rem_Minute (d : time.Duration) :
  d = time.Minute * Z.quot d time.Minute + Z.rem d time.Minute
  /\ (0 <= d -> 0 <= Z.rem d time.Minute < time.Minute)
  /\ (d <= 0 -> - time.Minute < Z.rem d time.Minute <= 0).
Proof.
  assert (HM : 0 < time.Minute) by reflexivity.
  split; [apply Z.quot_rem'|]. split; intros Hd.
  - apply Z.rem_bound_pos; lia.
  - pose proof (Z.rem_bound_pos (- d) time.Minute ltac:(lia) HM) as H.
    rewrite Z.rem_opp_l in H by lia. lia.
Qed.

(** The comparison of [Minutes] with 30 decides whether the duration
    reaches 30 minutes: rounding does not cross the threshold. *)
Lemma Minutes_ge_30 (d : time.Duration) :
  Qle_bool 30 (time.Minutes round d) = (30 * time.Minute <=? d).
Proof.
  unfold time.Minutes. cbv zeta.
  destruct (quot_rem_Minute d) as (Hqr & Hpos & Hneg).
  set (q := Z.quot d time.Minute) in *.
  set (n := Z.rem d time.Minute) in *.
  assert (HM : time.Minute = 60000000000) by reflexivity.
  assert (Hn : - time.Minute < n < time.Minute).
  { destruct (Z.le_gt_cases 0 d); [specialize (Hpos ltac:(lia))
                                  | specialize (Hneg ltac:(lia))]; lia. }
  destruct (Z.leb_spec (30 * time.Minute) d) as [Hd|Hd].
  - (* at least 30 minutes *)
    specialize (Hpos ltac:(lia)).
    assert (Hq : 30 <= q) by nia.
    assert (H30 : (round 30 == 30)%Q) by (apply (round_int 30); cbn; lia).
    apply Qle_bool_iff. rewrite <- H30. apply round_le.
    rewrite round_fraction by exact Hn.
    rewrite <- (Qplus_0_r 30).
    apply Qplus_le_compat; [|apply fraction_nonneg; lia].
    rewrite <- H30. apply round_le.
    change 30%Q with (inject_Z 30). rewrite <- Zle_Qle. exact Hq.
  - (* less than 30 minutes *)
    assert (Hq : q <= 29).
    { destruct (Z.le_gt_cases 0 d); [specialize (Hpos ltac:(lia))
                                    | specialize (Hneg ltac:(lia))]; nia. }
    apply not_true_is_false. intros Hle. apply Qle_bool_iff in Hle.
    assert (H29 : (round 29 == 29)%Q) by (apply (round_int 29); cbn; lia).
    assert (Hsum :
      (round (inject_Z q)
       + round (round (inject_Z n) / round (inject_Z (60 * 1000000000)))
       <= (30 * 2 ^ 36 - 1) # 2 ^ 36)%Q).
    { rewrite round_fraction by exact Hn.
      setoid_replace ((30 * 2 ^ 36 - 1) # 2 ^ 36)%Q
        with (29 + ((2 ^ 36 - 1) # 2 ^ 36))%Q by (unfold Qeq; cbn; lia).
      apply Qplus_le_compat; [|apply fraction_below_one; lia].
      rewrite <- H29. apply round_le.
      change 29%Q with (inject_Z 29). rewrite <- Zle_Qle. exact Hq. }
    apply round_le in Hsum.
    rewrite (round_exact ((30 * 2 ^ 36 - 1) # 2 ^ 36)) in Hsum
      by (apply float64Value_36; cbn; lia).
    pose proof (Qle_trans _ _ _ Hle Hsum) as Habs.
    unfold Qle in Habs. cbn in Habs. lia.
Qed.

Lemma prune_from (ranges acc : list Range) :
  fold_left
    (fun longRanges r =>
       if Qle_bool 30 (time.Minutes round (Duration r))
       then longRanges ++ [r] else longRanges)
    ranges acc
  = acc ++ keepLong ranges.
Proof.
  revert acc. induction ranges as [|r rs IH]; intros acc; cbn [fold_left].
  - unfold keepLong. cbn [filter]. now rewrite app_nil_r.
  - rewrite IH, Minutes_ge_30. unfold keepLong. cbn [filter].
    destruct (30 * time.Minute <=? Duration r); [|reflexivity].
    rewrite <- app_assoc. reflexivity.
Qed.

(** C7.  The pruning loop keeps the ranges that last 30 minutes or more,
    in their order, and no other: a range of 30 minutes is kept, a range
    of 29 minutes is dropped. *)
Theorem prune_keeps_long (ranges : list Range) :
  prune round ranges = keepLong ranges
  /\ (forall r, Duration r = 30 * time.Minute -> prune round [r] = [r])
  /\ (forall r, Duration r = 29 * time.Minute -> prune round [r] = []).
Proof.
  unfold prune. rewrite prune_from. split; [reflexivity|].
  split; intros r Hr; rewrite prune_from; unfold keepLong; cbn [filter];
    rewrite Hr; reflexivity.
Qed.

End Prune.

(** The duration of a range is the distance of its instants, as long as
    it fits an int64; the comparison with 30 minutes is not affected by
    the saturation. *)
Lemma Duration_ge_30 (r : Range) :
  (30 * time.Minute <=? Duration r)
  = (30 * time.Minute <=? instant (End r) - instant (Start r)).
Proof.
  unfold Duration, time.Sub, instant, Start, End.
  set (d := time.unixNano (end_ r) - time.unixNano (start r)).
  change time.minDuration with (-9223372036854775808).
  change time.maxDuration with 9223372036854775807.
  change (30 * time.Minute) with 1800000000000.
  destruct (Z.ltb_spec d (-9223372036854775808)).
  - destruct (Z.leb_spec 1800000000000 d); [lia | reflexivity].
  - destruct (Z.ltb_spec 9223372036854775807 d); [|reflexivity].
    destruct (Z.leb_spec 1800000000000 d); [reflexivity | lia].
Qed.

Lemma prune_keeps_long_witness :
  let exact := fun q : Q => q in
  let t (minutes : Z) := time.mkTime (minutes * time.Minute) 0 in
  prune exact [mkRange (t 0) (t 29); mkRange (t 60) (t 90);
               mkRange (t 100) (t 100); mkRange (t 120) (t 600)]
  = [mkRange (t 60) (t 90); mkRange (t 120) (t 600)].
Proof.
  cbv zeta.
  refine (eq_trans (proj1 (prune_keeps_long (fun q : Q => q) _ _)) _).
  - split; [intros x y H; exact H | intros q _; reflexivity].
  - reflexivity.
Defined.

(* ================================================================== *)
(** ** Further properties of [split] and [After] *)

Lemma split_covers (r : Range) (s e : time.Time) (i : Z) :
  covered (split r s e) i <-> covers r i /\ ~ taken s e i.
Proof.
  unfold covered. rewrite split_guards.
  destruct (Z.leb_spec (instant e) (instant (Start r))) as [G1|G1];
    cbn [orb].
  - rewrite Exists_cons, Exists_nil. unfold covers, taken. lia.
  - destruct (Z.leb_spec (instant (End r)) (instant s)) as [G2|G2].
    + rewrite Exists_cons, Exists_nil. unfold covers, taken. lia.
    + unfold leftRemainder, rightRemainder.
      destruct (strictlyInside s r) eqn:Es, (strictlyInside e r) eqn:Ee;
        [ apply strictlyInside_spec in Es
        | apply strictlyInside_spec in Es
        | |];
        try apply strictlyInside_spec in Ee;
        try (apply not_true_iff_false in Es;
             rewrite strictlyInside_spec in Es);
        try (apply not_true_iff_false in Ee;
             rewrite strictlyInside_spec in Ee);
        cbn [app]; rewrite ?Exists_cons, ?Exists_nil;
        unfold covers, taken, Start, End in *; cbn [start end_] in *; lia.
Qed.

(** [split] as a subtraction of sets of instants: an instant is covered
    by one of the returned ranges exactly when [r] covers it and the
    splitter does not take it.  This holds for every receiver and every
    splitter, with no condition on the order of their endpoints. *)
Theorem split_coverage (r : Range) (s e : time.Time) (i : Z) :
  covered (split r s e) i <-> covers r i /\ ~ taken s e i.
Proof. apply split_covers. Qed.

(** [split] returns at most two ranges, and two exactly when both [s] and
    [e] fall strictly inside [r]. *)
Theorem split_length (r : Range) (s e : time.Time) :
  (List.length (split r s e) <= 2)%nat
  /\ (List.length (split r s e) = 2%nat
      <-> strictlyInside s r = true /\ strictlyInside e r = true).
Proof.
  rewrite split_guards.
  destruct (Z.leb_spec (instant e) (instant (Start r))) as [G1|G1];
    cbn [orb].
  - cbn. split; [lia|]. split; [discriminate|].
    intros [_ He]. apply strictlyInside_spec in He. lia.
  - destruct (Z.leb_spec (instant (End r)) (instant s)) as [G2|G2].
    + cbn. split; [lia|]. split; [discriminate|].
      intros [Hs _]. apply strictlyInside_spec in Hs. lia.
    + destruct (strictlyInside s r), (strictlyInside e r); cbn;
        (split; [lia|]); split; intros H; try discriminate;
        try (destruct H; discriminate); auto.
Qed.

(** What [split] returns does not overlap the splitter. *)
Lemma split_clear (r : Range) (s e : time.Time) :
  Forall (fun x => ~ overlaps x s e) (split r s e).
Proof.
  rewrite split_guards.
  destruct (Z.leb_spec (instant e) (instant (Start r))) as [G1|G1];
    cbn [orb].
  - repeat constructor. unfold overlaps. lia.
  - destruct (Z.leb_spec (instant (End r)) (instant s)) as [G2|G2].
    + repeat constructor. unfold overlaps. lia.
    + unfold leftRemainder, rightRemainder.
      destruct (strictlyInside s r), (strictlyInside e r); cbn [app];
        repeat constructor;
        unfold overlaps, Start, End; cbn [start end_]; lia.
Qed.

(** The ranges [split] returns lie within the receiver, whatever the
    splitter. *)
Lemma split_within (r : Range) (s e : time.Time) :
  Forall (fun x => within x r) (split r s e).
Proof.
  rewrite split_guards.
  destruct ((instant e <=? instant (Start r))
            || (instant (End r) <=? instant s)).
  - repeat constructor; lia.
  - unfold leftRemainder, rightRemainder.
    destruct (strictlyInside s r) eqn:Es, (strictlyInside e r) eqn:Ee;
      try apply strictlyInside_spec in Es;
      try apply strictlyInside_spec in Ee;
      cbn [app]; repeat constructor;
      unfold Start, End in *; cbn [start end_] in *; lia.
Qed.

(** [After] as a clip of sets of instants: the returned range covers
    the instants of [r] that are not before [t].  Its end is the end of
    [r] in every case. *)
Theorem After_coverage (r : Range) (t : time.Time) (i : Z) :
  (covers (After r t) i <-> covers r i /\ instant t <= i)
  /\ End (After r t) = End r.
Proof.
  unfold After, time.After, time.Before, covers, instant.
  destruct (Z.ltb_spec (time.unixNano (End r)) (time.unixNano t)).
  - unfold Start, End in *. cbn [start end_]. split; [lia | reflexivity].
  - destruct (Z.ltb_spec (time.unixNano t) (time.unixNano (Start r))).
    + split; [lia | reflexivity].
    + unfold Start, End in *. cbn [start end_]. split; [lia | reflexivity].
Qed.

(** Clipping twice at the same time is clipping once. *)
Theorem After_idempotent (r : Range) (t : time.Time) :
  After (After r t) t = After r t.
Proof.
  unfold After at 2 3. unfold time.After, time.Before.
  destruct (Z.ltb_spec (time.unixNano (End r)) (time.unixNano t)) as [H|H].
  - unfold After, time.After, Start, End. cbn [start end_].
    apply Z.ltb_lt in H. unfold End in H. now rewrite H.
  - destruct (Z.ltb_spec (time.unixNano t) (time.unixNano (Start r)))
      as [H'|H'].
    + unfold After, time.After, time.Before.
      apply Z.ltb_ge in H. apply Z.ltb_lt in H'. now rewrite H, H'.
    + unfold After, time.After, time.Before, Start, End in *.
      cbn [start end_]. apply Z.ltb_ge in H. rewrite H.
      now rewrite Z.ltb_irrefl.
Qed.

(* ================================================================== *)
(** ** Further properties of the reduction *)

(** An event that overlaps no free range leaves the list as it is. *)
Lemma subtract_disjoint (freeRanges : list Range) (s e : time.Time) :
  Forall (fun r => ~ overlaps r s e) freeRanges ->
  subtract freeRanges s e = freeRanges.
Proof.
  intros H. rewrite subtract_flat_map.
  induction H as [|r rs Hr _ IH]; cbn; [reflexivity|].
  rewrite (split_disjoint r s e Hr), IH. reflexivity.
Qed.

Lemma subtract_clear (freeRanges : list Range) (s e : time.Time) :
  Forall (fun x => ~ overlaps x s e) (subtract freeRanges s e).
Proof.
  rewrite subtract_flat_map. apply Forall_flat_map.
  apply Forall_forall. intros r _. apply split_clear.
Qed.

(** Each range of the new list lies within a range of the old one. *)
Lemma subtract_within (freeRanges : list Range) (s e : time.Time) :
  Forall (fun x => exists r, In r freeRanges /\ within x r)
         (subtract freeRanges s e).
Proof.
  rewrite subtract_flat_map. apply Forall_forall. intros x Hin.
  apply in_flat_map in Hin as (r & Hr & Hx). exists r. split; [exact Hr|].
  pose proof (split_within r s e) as H. rewrite Forall_forall in H.
  apply H, Hx.
Qed.

(** A range within one that does not overlap the event does not overlap
    it either. *)
Lemma within_clear (x r : Range) (s e : time.Time) :
  within x r -> ~ overlaps r s e -> ~ overlaps x s e.
Proof. unfold within, overlaps. lia. Qed.

Lemma within_trans (x y z : Range) : within x y -> within y z -> within x z.
Proof. unfold within. lia. Qed.

Lemma subtract_covers (freeRanges : list Range) (s e : time.Time)
    (i : Z) :
  covered (subtract freeRanges s e) i
  <-> covered freeRanges i /\ ~ taken s e i.
Proof.
  unfold covered. rewrite subtract_flat_map, Exists_flat_map.
  rewrite !Exists_exists. split.
  - intros (r & Hr & Hx). apply split_covers in Hx as [Hc Ht].
    split; [exists r; split; assumption | exact Ht].
  - intros [(r & Hr & Hc) Ht]. exists r. split; [exact Hr|].
    apply split_covers. split; assumption.
Qed.

(** Subtracting an event removes the instants it takes from the free
    time, and no other. *)
Theorem subtract_coverage (freeRanges : list Range) (s e : time.Time)
    (i : Z) :
  covered (subtract freeRanges s e) i
  <-> covered freeRanges i /\ ~ taken s e i.
Proof. apply subtract_covers. Qed.

(** After an event is subtracted no free range overlaps it, and
    subtracting it once more changes nothing. *)
Theorem subtract_idempotent (freeRanges : list Range) (s e : time.Time) :
  Forall (fun x => ~ overlaps x s e) (subtract freeRanges s e)
  /\ subtract (subtract freeRanges s e) s e = subtract freeRanges s e.
Proof.
  split; [apply subtract_clear|]. apply subtract_disjoint, subtract_clear.
Qed.

Lemma chronological_app (l1 l2 : list Range) :
  chronological l1 -> chronological l2 ->
  (forall a b, In a l1 -> In b l2 -> instant (End a) <= instant (Start b)) ->
  chronological (l1 ++ l2).
Proof.
  unfold chronological. intros H1 H2 H12.
  induction H1 as [|a l1 Ha H1 IH]; cbn; [exact H2|].
  constructor.
  - apply Forall_app. split; [exact Ha|].
    apply Forall_forall. intros b Hb. apply H12; [now left | exact Hb].
  - apply IH. intros x y Hx Hy. apply H12; [now right | exact Hy].
Qed.

Lemma split_chronological (r : Range) (s e : time.Time) :
  instant s <= instant e -> chronological (split r s e).
Proof.
  intros Hse. unfold chronological. rewrite split_guards.
  destruct ((instant e <=? instant (Start r))
            || (instant (End r) <=? instant s)).
  - repeat constructor.
  - unfold leftRemainder, rightRemainder.
    destruct (strictlyInside s r), (strictlyInside e r); cbn [app];
      repeat constructor; unfold Start, End; cbn [start end_]; lia.
Qed.

Lemma subtract_chronological (freeRanges : list Range) (s e : time.Time) :
  instant s <= instant e ->
  chronological freeRanges -> chronological (subtract freeRanges s e).
Proof.
  intros Hse Hchr. rewrite subtract_flat_map.
  induction Hchr as [|r rs Hr Hrs IH]; cbn [flat_map].
  - constructor.
  - apply chronological_app; [apply split_chronological, Hse | exact IH|].
    intros a b Ha Hb. apply in_flat_map in Hb as (r' & Hr' & Hb).
    pose proof (split_within r s e) as Wa.
    pose proof (split_within r' s e) as Wb.
    rewrite Forall_forall in Wa, Wb, Hr.
    specialize (Wa a Ha). specialize (Wb b Hb). specialize (Hr r' Hr').
    unfold within in *. lia.
Qed.

Lemma chronological_filter (f : Range -> bool) (ranges : list Range) :
  chronological ranges -> chronological (filter f ranges).
Proof.
  unfold chronological. intros H.
  induction H as [|a l Ha Hl IH]; cbn [filter]; [constructor|].
  destruct (f a); [|exact IH]. constructor; [|exact IH].
  rewrite Forall_forall in *. intros b Hb. apply filter_In in Hb as [Hb _].
  apply Ha, Hb.
Qed.

(** For an event that does not end before it starts, the reduction keeps
    the free ranges in their order in time, each ending at or before the
    start of the next ones, and keeps them of positive length. *)
Theorem subtract_keeps_order (freeRanges : list Range) (s e : time.Time) :
  instant s <= instant e ->
  chronological freeRanges -> Forall positive freeRanges ->
  chronological (subtract freeRanges s e)
  /\ Forall positive (subtract freeRanges s e).
Proof.
  intros Hse Hchr Hpos. split.
  - apply subtract_chronological; assumption.
  - rewrite subtract_flat_map.
    apply Forall_flat_map. rewrite Forall_forall in Hpos.
    apply Forall_forall. intros r Hr. apply Forall_forall. intros x Hx.
    destruct (split_piece_cases r s e x Hx) as [[-> _]|Hp];
      [apply Hpos, Hr | exact Hp].
Qed.

Lemma subtract_keeps_order_witness :
  let l := [mkRange (time.mkTime 10 0) (time.mkTime 18 0);
            mkRange (time.mkTime 34 0) (time.mkTime 42 0)] in
  chronological (subtract l (time.mkTime 12 0) (time.mkTime 36 0))
  /\ Forall positive (subtract l (time.mkTime 12 0) (time.mkTime 36 0)).
Proof.
  cbv zeta.
  apply (subtract_keeps_order
           [mkRange (time.mkTime 10 0) (time.mkTime 18 0);
            mkRange (time.mkTime 34 0) (time.mkTime 42 0)]
           (time.mkTime 12 0) (time.mkTime 36 0)).
  - unfold instant. simpl. lia.
  - repeat constructor; unfold instant; simpl; lia.
  - repeat constructor; unfold positive, instant; simpl; lia.
Defined.

Section Reduce.

Variable Parse : string -> option time.Time.

Lemma reduce_cons (freeRanges : list Range) (event : Event)
    (events : list Event) :
  reduce Parse freeRanges (event :: events)
  = match reduceStep Parse freeRanges event with
    | None => None
    | Some freeRanges => reduce Parse freeRanges events
    end.
Proof.
  unfold reduce. cbn [fold_left].
  destruct (reduceStep Parse freeRanges event); [reflexivity|].
  induction events as [|ev evs IH]; [reflexivity | exact IH].
Qed.

Lemma reduceStep_all_day (freeRanges : list Range) (event : Event) :
  StartDateTime event = EmptyString ->
  reduceStep Parse freeRanges event = Some freeRanges.
Proof. intros H. unfold reduceStep. now rewrite H. Qed.

Lemma reduceStep_nil (event : Event) : reduceStep Parse [] event = Some [].
Proof. unfold reduceStep. now destruct (String.eqb _ _). Qed.

Lemma fold_left_None (A B : Type) (f : option A -> B -> option A) :
  (forall b, f None b = None) -> forall l, fold_left f l None = None.
Proof.
  intros Hf l. induction l as [|b l IH]; cbn [fold_left];
    [reflexivity | now rewrite Hf].
Qed.

Lemma reduceStep_fatal_intro (r : Range) (rs : list Range) (event : Event) :
  StartDateTime event <> EmptyString ->
  Parse (StartDateTime event) = None \/ Parse (EndDateTime event) = None ->
  reduceStep Parse (r :: rs) event = None.
Proof.
  intros E H. unfold reduceStep. apply String.eqb_neq in E. rewrite E.
  cbn [fold_left].
  match goal with
  | |- fold_left ?F rs ?x = None =>
      assert (Hx : x = None);
      [|rewrite Hx; apply fold_left_None; reflexivity]
  end.
  destruct H as [H|H]; rewrite H; [reflexivity|].
  destruct (Parse (StartDateTime event)); reflexivity.
Qed.

(** The fatal exit of an iteration: the event has a start [DateTime],
    there is a free range left, and one of the two strings does not
    parse.  With no free range left the strings are not even parsed. *)
Theorem reduceStep_fatal (freeRanges : list Range) (event : Event) :
  reduceStep Parse freeRanges event = None
  <-> StartDateTime event <> EmptyString
      /\ freeRanges <> []
      /\ (Parse (StartDateTime event) = None
          \/ Parse (EndDateTime event) = None).
Proof.
  destruct (String.eqb_spec (StartDateTime event) EmptyString) as [E|E].
  - rewrite reduceStep_all_day by exact E. split; [discriminate|].
    intros [H _]. contradiction.
  - destruct freeRanges as [|r rs].
    + rewrite reduceStep_nil. split; [discriminate|].
      intros (_ & H & _). contradiction.
    + destruct (Parse (StartDateTime event)) as [s|] eqn:Es,
               (Parse (EndDateTime event)) as [e|] eqn:Ee.
      * rewrite (reduceStep_subtract Parse _ event s e E Es Ee).
        split; [discriminate|]. intros (_ & _ & [H|H]); discriminate.
      * split; [intros _; repeat split; auto; discriminate|]. intros _.
        apply reduceStep_fatal_intro; auto.
      * split; [intros _; repeat split; auto; discriminate|]. intros _.
        apply reduceStep_fatal_intro; auto.
      * split; [intros _; repeat split; auto; discriminate|]. intros _.
        apply reduceStep_fatal_intro; auto.
Qed.

(** Once nothing is free, nothing is free after any events, and no event
    is fatal. *)
Theorem reduce_nothing_free (events : list Event) :
  reduce Parse [] events = Some [].
Proof.
  induction events as [|ev evs IH]; [reflexivity|].
  rewrite reduce_cons, reduceStep_nil. exact IH.
Qed.

(** When every event is an all-day event or parses, the reduction
    returns, and what it returns covers the instants that were free and
    that no event takes.  All-day events take nothing. *)
Theorem reduce_coverage (events : list Event) (freeRanges : list Range) :
  Forall (readable Parse) events ->
  exists result,
    reduce Parse freeRanges events = Some result
    /\ forall i, covered result i
                 <-> covered freeRanges i /\ ~ busy Parse events i.
Proof.
  intros Hread. revert freeRanges.
  induction Hread as [|ev evs Hev _ IH]; intros freeRanges.
  - exists freeRanges. split; [reflexivity|]. intros i. split.
    + intros H. split; [exact H|]. intros (ev & s & e & [] & _).
    + intros [H _]. exact H.
  - rewrite reduce_cons. destruct Hev as [Hall|(s & e & Hp)].
    + rewrite reduceStep_all_day by exact Hall.
      destruct (IH freeRanges) as (result & Hres & Hcov).
      exists result. split; [exact Hres|]. intros i. rewrite Hcov.
      split; intros [Hc Hb]; (split; [exact Hc|]); intros (ev' & s' & e' & Hin & Hp' & Ht);
        apply Hb.
      * destruct Hin as [<-|Hin].
        -- destruct Hp' as [Hne _]. contradiction.
        -- exists ev', s', e'. auto.
      * exists ev', s', e'. split; [now right | auto].
    + destruct Hp as (Hne & Hs & He).
      rewrite (reduceStep_subtract Parse _ ev s e Hne Hs He).
      destruct (IH (subtract freeRanges s e)) as (result & Hres & Hcov).
      exists result. split; [exact Hres|]. intros i.
      rewrite Hcov, subtract_covers. split.
      * intros [[Hc Ht] Hb]. split; [exact Hc|].
        intros (ev' & s' & e' & Hin & Hp' & Ht').
        destruct Hin as [<-|Hin].
        -- destruct Hp' as (_ & Hs' & He').
           rewrite Hs in Hs'. rewrite He in He'.
           injection Hs' as <-. injection He' as <-. contradiction.
        -- apply Hb. exists ev', s', e'. auto.
      * intros [Hc Hb]. repeat split; [exact Hc | |].
        -- intros Ht. apply Hb. exists ev, s, e.
           split; [now left|]. split; [|exact Ht]. repeat split; assumption.
        -- intros (ev' & s' & e' & Hin & Hp' & Ht'). apply Hb.
           exists ev', s', e'. split; [now right | auto].
Qed.

(** What an iteration that returns does. *)
Lemma reduceStep_cases (freeRanges : list Range) (ev : Event)
    (l1 : list Range) :
  reduceStep Parse freeRanges ev = Some l1 ->
  (l1 = freeRanges /\ forall s e, ~ parsesTo Parse ev s e)
  \/ (exists s e, parsesTo Parse ev s e /\ l1 = subtract freeRanges s e)
  \/ l1 = [].
Proof.
  intros Hstep.
  destruct (String.eqb_spec (StartDateTime ev) EmptyString) as [E|E].
  - left. rewrite reduceStep_all_day in Hstep by exact E.
    injection Hstep as <-. split; [reflexivity|].
    intros s e [Hne _]. contradiction.
  - destruct freeRanges as [|r rs].
    + right. right. rewrite reduceStep_nil in Hstep.
      now injection Hstep as <-.
    + destruct (Parse (StartDateTime ev)) as [s|] eqn:Es;
        [destruct (Parse (EndDateTime ev)) as [e|] eqn:Ee|].
      * right. left. exists s, e.
        rewrite (reduceStep_subtract Parse _ ev s e E Es Ee) in Hstep.
        injection Hstep as <-. repeat split; assumption.
      * assert (Hf : reduceStep Parse (r :: rs) ev = None).
        { apply reduceStep_fatal_intro; auto. }
        rewrite Hf in Hstep. discriminate.
      * assert (Hf : reduceStep Parse (r :: rs) ev = None).
        { apply reduceStep_fatal_intro; auto. }
        rewrite Hf in Hstep. discriminate.
Qed.

(** The reduction keeps the order in time when no event ends before it
    starts. *)
Lemma reduce_chronological (events : list Event)
    (freeRanges result : list Range) :
  (forall event s e,
     In event events -> parsesTo Parse event s e -> instant s <= instant e) ->
  chronological freeRanges ->
  reduce Parse freeRanges events = Some result ->
  chronological result.
Proof.
  revert freeRanges. induction events as [|ev evs IH];
    intros freeRanges Hord Hchr Hres.
  - now injection Hres as <-.
  - rewrite reduce_cons in Hres.
    destruct (reduceStep Parse freeRanges ev) as [l1|] eqn:Hstep;
      [|discriminate].
    apply (IH l1); [intros ev' s e Hin; apply Hord; now right | | exact Hres].
    destruct (reduceStep_cases freeRanges ev l1 Hstep)
      as [[-> _] | [(s & e & Hp & ->) | -> ]].
    + exact Hchr.
    + apply subtract_chronological; [|exact Hchr].
      apply (Hord ev s e); [now left | exact Hp].
    + constructor.
Qed.

Lemma reduce_result (events : list Event) (freeRanges result : list Range) :
  reduce Parse freeRanges events = Some result ->
  Forall
    (fun x =>
       (exists r, In r freeRanges /\ within x r)
       /\ forall event s e,
            In event events -> parsesTo Parse event s e -> ~ overlaps x s e)
    result.
Proof.
  revert freeRanges. induction events as [|ev evs IH]; intros freeRanges Hres.
  - injection Hres as <-. apply Forall_forall. intros x Hx. split.
    + exists x. split; [exact Hx | unfold within; lia].
    + intros ev s e [].
  - rewrite reduce_cons in Hres.
    destruct (reduceStep Parse freeRanges ev) as [l1|] eqn:Hstep;
      [|discriminate].
    specialize (IH l1 Hres). rewrite Forall_forall in IH.
    apply Forall_forall. intros x Hx. destruct (IH x Hx) as [(y & Hy & Wxy) Hclear].
    pose proof (reduceStep_cases freeRanges ev l1 Hstep) as Hl1.
    destruct Hl1 as [[-> Hnone] | [(s & e & Hp & ->) | -> ]].
    + split; [exists y; split; assumption|].
      intros ev' s e [<-|Hin] Hp; [destruct (Hnone s e Hp)|].
      apply (Hclear ev' s e Hin Hp).
    + pose proof (subtract_within freeRanges s e) as Hw.
      pose proof (subtract_clear freeRanges s e) as Hc.
      rewrite Forall_forall in Hw, Hc.
      destruct (Hw y Hy) as (r & Hr & Wyr). split.
      * exists r. split; [exact Hr | exact (within_trans _ _ _ Wxy Wyr)].
      * intros ev' s' e' [<-|Hin] Hp'; [|apply (Hclear ev' s' e' Hin Hp')].
        destruct Hp as (_ & Hs & He). destruct Hp' as (_ & Hs' & He').
        rewrite Hs in Hs'. rewrite He in He'.
        injection Hs' as <-. injection He' as <-.
        apply (within_clear x y s e Wxy), Hc, Hy.
    + destruct Hy.
Qed.

(** Whenever the reduction returns, each range it returns lies within
    one of the free ranges it started from and overlaps none of the
    events. *)
Theorem reduce_sound (events : list Event) (freeRanges result : list Range) :
  reduce Parse freeRanges events = Some result ->
  Forall
    (fun x =>
       (exists r, In r freeRanges /\ within x r)
       /\ forall event s e,
            In event events -> parsesTo Parse event s e -> ~ overlaps x s e)
    result.
Proof. apply reduce_result. Qed.

End Reduce.

(** A free range from 10 to 18, an event from 12 to 13 and an all-day
    event. *)
Lemma reduce_coverage_witness :
  let Parse := fun s : string =>
    if String.eqb s "noon" then Some (time.mkTime 12 0)
    else if String.eqb s "one" then Some (time.mkTime 13 0)
    else None in
  let events := [mkEvent "noon" "one"; mkEvent EmptyString EmptyString] in
  let free := [mkRange (time.mkTime 10 0) (time.mkTime 18 0)] in
  exists result,
    reduce Parse free events = Some result
    /\ forall i, covered result i <-> covered free i /\ ~ busy Parse events i.
Proof.
  cbv zeta. apply reduce_coverage.
  apply Forall_cons; [|apply Forall_cons; [|apply Forall_nil]].
  - right. exists (time.mkTime 12 0), (time.mkTime 13 0).
    repeat split. discriminate.
  - left. reflexivity.
Defined.

Lemma reduce_sound_witness :
  let Parse := fun s : string =>
    if String.eqb s "noon" then Some (time.mkTime 12 0)
    else if String.eqb s "one" then Some (time.mkTime 13 0)
    else None in
  let events := [mkEvent "noon" "one"; mkEvent EmptyString EmptyString] in
  let free := [mkRange (time.mkTime 10 0) (time.mkTime 18 0)] in
  Forall
    (fun x =>
       (exists r, In r free /\ within x r)
       /\ forall event s e,
            In event events -> parsesTo Parse event s e -> ~ overlaps x s e)
    [mkRange (time.mkTime 10 0) (time.mkTime 12 0);
     mkRange (time.mkTime 13 0) (time.mkTime 18 0)].
Proof.
  cbv zeta. apply reduce_sound. reflexivity.
Defined.


(* ================================================================== *)
(** ** Further properties of [nextWorkDay] *)

(** The instant of a time, from its local day, its second of the day,
    the offset in force and its nanosecond. *)
Lemma instant_split (t : time.Time) :
  instant t
  = ((localDay t - time.unixEpochDay) * 86400 + secondOfDay t
     - time.offsetAt (time.zone t) (time.Unix t))
    * 1000000000 + time.nsec t
  /\ 0 <= secondOfDay t < 86400 /\ 0 <= time.nsec t < 1000000000.
Proof.
  destruct (timeFacts.unixNano_split t) as [Hu Hn].
  destruct (timeFacts.abs_split t) as [Ha Hs].
  change time.secondsPerDay with 86400 in *.
  unfold instant. rewrite Hu, Ha. repeat split; lia.
Qed.

Lemma instant_atHour (day hour : Z) (loc : time.Loc) :
  instant (atHour day hour loc)
  = ((day - time.unixEpochDay) * 86400 + hour * 3600
     - dateOffset loc day (hour * 3600)) * 1000000000.
Proof. reflexivity. Qed.

(** The offset [Date] settles on is an offset of the location. *)
Lemma dateOffset_narrow (loc : time.Loc) (day sec u : Z) :
  narrow loc ->
  - 21600 < dateOffset loc day sec - time.offsetAt loc u < 21600.
Proof.
  intros Hn. unfold dateOffset. cbv zeta.
  match goal with
  | |- _ < time.offsetAt loc ?v - _ < _ =>
      pose proof (Hn v u); pose proof (Hn u v)
  end.
  lia.
Qed.

(** The workday of a day has not ended exactly when the day is the
    candidate day or a later one. *)
Lemma notEnded_candidate (now : time.Time) (day : Z) :
  notEnded now day <-> candidateDay now <= day.
Proof.
  unfold notEnded, candidateDay.
  destruct (Z.leb_spec (18 * 3600) (secondOfDay now)); lia.
Qed.

Lemma weekendSkip_range (day : Z) : 0 <= weekendSkip day <= 2.
Proof.
  unfold weekendSkip.
  destruct (weekdayOf day =? time.Saturday); [lia|].
  destruct (weekdayOf day =? time.Sunday); lia.
Qed.

Lemma weekendSkip_weekday_0 (day : Z) : isWeekday day -> weekendSkip day = 0.
Proof.
  unfold isWeekday, weekendSkip, time.Monday, time.Friday, time.Saturday,
    time.Sunday.
  intros H.
  destruct (Z.eqb_spec (weekdayOf day) 6); [lia|].
  destruct (Z.eqb_spec (weekdayOf day) 0); [lia | reflexivity].
Qed.

(** The first day from Monday to Friday at or after [day]. *)
Lemma weekendSkip_least (day d : Z) :
  day <= d -> isWeekday d -> day + weekendSkip day <= d.
Proof.
  unfold isWeekday, weekendSkip, time.Monday, time.Friday, time.Saturday,
    time.Sunday.
  intros Hle Hd.
  destruct (Z.eqb_spec (weekdayOf day) 6) as [E|E].
  - destruct (Z.eq_dec d day) as [->|]; [lia|].
    destruct (Z.eq_dec d (day + 1)) as [->|]; [|lia].
    rewrite weekdayOf_succ, E in Hd. cbn in Hd. lia.
  - destruct (Z.eqb_spec (weekdayOf day) 0) as [E0|E0]; [|lia].
    destruct (Z.eq_dec d day) as [->|]; lia.
Qed.

Lemma weekendSkip_of (day w : Z) :
  weekdayOf day = w ->
  weekendSkip day = if w =? 6 then 2 else if w =? 0 then 1 else 0.
Proof. intros <-. reflexivity. Qed.

(** Between a day and the first weekday from it on, the first weekday is
    the same. *)
Lemma weekendSkip_between (day d : Z) :
  day <= d <= day + weekendSkip day ->
  d + weekendSkip d = day + weekendSkip day.
Proof.
  pose proof (weekdayOf_range day) as Hr.
  pose proof (weekdayOf_succ day) as H1.
  pose proof (weekdayOf_succ (day + 1)) as H2.
  replace (day + 1 + 1) with (day + 2) in H2 by ring.
  destruct (Z.eq_dec (weekdayOf day) 6) as [E|E].
  - rewrite E in H1. cbn in H1. rewrite H1 in H2. cbn in H2.
    rewrite (weekendSkip_of day 6 E). cbn. intros H.
    assert (Hd : d = day \/ d = day + 1 \/ d = day + 2) by lia.
    destruct Hd as [->|[->| ->]].
    + rewrite (weekendSkip_of day 6 E). reflexivity.
    + rewrite (weekendSkip_of _ 0 H1). cbn. ring.
    + rewrite (weekendSkip_of _ 1 H2). cbn. ring.
  - destruct (Z.eq_dec (weekdayOf day) 0) as [E0|E0].
    + rewrite E0 in H1. cbn in H1.
      rewrite (weekendSkip_of day 0 E0). cbn. intros H.
      assert (Hd : d = day \/ d = day + 1) by lia.
      destruct Hd as [->| ->].
      * rewrite (weekendSkip_of day 0 E0). reflexivity.
      * rewrite (weekendSkip_of _ 1 H1). cbn. ring.
    + assert (Hs : weekendSkip day = 0).
      { rewrite (weekendSkip_of day _ eq_refl).
        destruct (Z.eqb_spec (weekdayOf day) 6); [contradiction|].
        destruct (Z.eqb_spec (weekdayOf day) 0); [contradiction|reflexivity]. }
      rewrite Hs. intros H. replace d with day by lia. now rewrite Hs.
Qed.

(** The day of the workday [nextWorkDay] returns. *)
Lemma nextWorkDay_day (now : time.Time) :
  calm now = true ->
  localDay (Start (nextWorkDay now))
  = candidateDay now + weekendSkip (candidateDay now).
Proof.
  intros Hcalm. rewrite nextWorkDay_closed by exact Hcalm.
  unfold workday, Start. cbn [start].
  apply (timeFacts.resolves_atHour _ _ 10 (calm_start now Hcalm)). lia.
Qed.

(** The workday [nextWorkDay] returns ends after [now]. *)
Lemma nextWorkDay_ends_after (now : time.Time) :
  calm now = true -> narrow (time.zone now) ->
  instant now < instant (End (nextWorkDay now)).
Proof.
  intros Hcalm Hn. rewrite nextWorkDay_closed by exact Hcalm.
  unfold workday, End. cbn [end_].
  pose proof (weekendSkip_range (candidateDay now)) as Hr.
  pose proof (calm_six now Hcalm) as Hsix.
  set (day := candidateDay now + weekendSkip (candidateDay now)) in *.
  destruct (Z.eq_dec day (localDay now)) as [E|E].
  - (* today: it is not 18:00 yet *)
    assert (Hearly : (18 * 3600 <=? secondOfDay now) = false).
    { unfold day, candidateDay in E, Hr.
      destruct (18 * 3600 <=? secondOfDay now); [lia | reflexivity]. }
    rewrite Hearly in Hsix. apply Z.leb_gt in Hsix. rewrite E. exact Hsix.
  - (* a later day *)
    assert (Hlater : localDay now < day).
    { unfold day, candidateDay in *.
      destruct (18 * 3600 <=? secondOfDay now); lia. }
    rewrite instant_atHour.
    destruct (instant_split now) as (-> & Hs & Hns).
    pose proof (dateOffset_narrow (time.zone now) day (18 * 3600)
                  (time.Unix now) Hn).
    lia.
Qed.

(** In a location that plays no trick at [now], [nextWorkDay] returns a
    range from 10:00 to 18:00 of one local day, a day from Monday to
    Friday, in the location of [now]; it lasts eight hours when the
    offset of the location is the same at both ends. *)
Theorem nextWorkDay_shape (now : time.Time) :
  calm now = true ->
  let w := nextWorkDay now in
  time.Monday <= time.Weekday (Start w) <= time.Friday
  /\ time.Clock (Start w) = (10, 0, 0)
  /\ time.Clock (End w) = (18, 0, 0)
  /\ time.date (End w) = time.date (Start w)
  /\ time.Location (Start w) = time.Location now
  /\ time.Location (End w) = time.Location now
  /\ (time.offsetAt (time.zone now) (time.Unix (End w))
      = time.offsetAt (time.zone now) (time.Unix (Start w)) ->
      Duration w = 8 * time.Hour).
Proof.
  intros Hcalm. cbv zeta. rewrite nextWorkDay_closed by exact Hcalm.
  pose proof (calm_start now Hcalm) as Hs10.
  pose proof (calm_end now Hcalm) as Hs18.
  set (d := candidateDay now + weekendSkip (candidateDay now)) in *.
  set (z := time.zone now) in *.
  destruct (timeFacts.resolves_atHour z d 10 Hs10 ltac:(lia))
    as (Hd10 & Hc10 & _).
  destruct (timeFacts.resolves_atHour z d 18 Hs18 ltac:(lia))
    as (Hd18 & Hc18 & _).
  unfold workday, Start, End, Duration. cbn [start end_].
  repeat split.
  - rewrite timeFacts.Weekday_localDay, Hd10. apply weekendSkip_weekday.
  - rewrite timeFacts.Weekday_localDay, Hd10. apply weekendSkip_weekday.
  - apply timeFacts.Clock_full_hour; [lia | exact Hc10].
  - apply timeFacts.Clock_full_hour; [lia | exact Hc18].
  - unfold time.date. fold (localDay (atHour d 18 z)).
    fold (localDay (atHour d 10 z)). rewrite Hd10, Hd18. reflexivity.
  - unfold resolves in Hs10, Hs18.
    apply Z.eqb_eq in Hs10. apply Z.eqb_eq in Hs18.
    unfold atHour, atClock.
    destruct (timeFacts.Unix_mkTime
                (wallUnix d (10 * time.secondsPerHour)
                 - dateOffset z d (10 * time.secondsPerHour)) 0 z
                ltac:(lia)) as [HU10 _].
    destruct (timeFacts.Unix_mkTime
                (wallUnix d (18 * time.secondsPerHour)
                 - dateOffset z d (18 * time.secondsPerHour)) 0 z
                ltac:(lia)) as [HU18 _].
    rewrite Z.add_0_r in HU10, HU18. rewrite HU10, HU18.
    change (10 * time.secondsPerHour) with (10 * 3600).
    change (18 * time.secondsPerHour) with (18 * 3600).
    rewrite Hs10, Hs18. intros Hoff.
    unfold time.Sub. cbn [time.unixNano].
    rewrite Hoff. unfold wallUnix.
    replace (((d - time.unixEpochDay) * time.secondsPerDay + 18 * 3600
              - dateOffset z d (10 * 3600)) * 1000000000
             - ((d - time.unixEpochDay) * time.secondsPerDay + 10 * 3600
                - dateOffset z d (10 * 3600)) * 1000000000)
      with 28800000000000 by ring.
    reflexivity.
Qed.

Lemma nextWorkDay_shape_witness :
  let w := nextWorkDay (time.Date 2017 3 10 18 0 0 0 Chicago2017) in
  time.Weekday (Start w) = time.Monday
  /\ time.Clock (Start w) = (10, 0, 0)
  /\ time.Clock (End w) = (18, 0, 0)
  /\ Duration w = 8 * time.Hour.
Proof.
  cbv zeta.
  pose proof (nextWorkDay_shape (time.Date 2017 3 10 18 0 0 0 Chicago2017)
                ltac:(reflexivity)) as H.
  cbv zeta in H. destruct H as (_ & H10 & H18 & _ & _ & _ & Hdur).
  split; [reflexivity|]. split; [exact H10|]. split; [exact H18|].
  apply Hdur. reflexivity.
Defined.

(** In a location that plays no trick at [now] and whose offsets differ
    by less than six hours, [nextWorkDay] returns the earliest workday
    that has not ended: a day from Monday to Friday, whose workday has
    not ended at [now] and ends after [now], and such that no day from
    Monday to Friday whose workday has not ended comes before it. *)
Theorem nextWorkDay_earliest (now : time.Time) :
  calm now = true -> narrow (time.zone now) ->
  let day := localDay (Start (nextWorkDay now)) in
  isWeekday day
  /\ notEnded now day
  /\ instant now < instant (End (nextWorkDay now))
  /\ forall d, isWeekday d -> notEnded now d -> day <= d.
Proof.
  intros Hcalm Hn. cbv zeta. rewrite nextWorkDay_day by exact Hcalm.
  pose proof (weekendSkip_range (candidateDay now)) as Hr.
  split; [apply weekendSkip_weekday|].
  split; [apply notEnded_candidate; lia|].
  split; [apply nextWorkDay_ends_after; assumption|].
  intros d Hd Hne. apply weekendSkip_least; [|exact Hd].
  apply notEnded_candidate, Hne.
Qed.

Lemma nextWorkDay_earliest_witness :
  let now := time.Date 2017 3 10 18 0 0 0 Chicago2017 in
  localDay (Start (nextWorkDay now)) <= localDay now + 3.
Proof.
  cbv zeta.
  refine (proj2 (proj2 (proj2
            (nextWorkDay_earliest (time.Date 2017 3 10 18 0 0 0 Chicago2017)
               ltac:(reflexivity) Chicago2017_narrow))) _ _ _).
  - unfold isWeekday. vm_compute. split; discriminate.
  - unfold notEnded. left. vm_compute. reflexivity.
Defined.

(** The candidate day does not decrease with the instant, and a time
    before 18:00 of a day the location resolves has that day as its
    candidate day at the latest. *)
Lemma candidateDay_mono (now t : time.Time) :
  calm now = true -> calm t = true -> narrow (time.zone now) ->
  time.zone t = time.zone now ->
  instant now <= instant t ->
  candidateDay now <= candidateDay t.
Proof.
  intros Hcn Hct Hn Hz Hle.
  pose proof (calm_six now Hcn) as Hsn. pose proof (calm_six t Hct) as Hst.
  rewrite Hz in Hst.
  destruct (instant_split now) as (Hin & Hsod & Hns).
  destruct (instant_split t) as (Hit & Hsodt & Hnst).
  rewrite Hz in Hit.
  pose proof (Hn (time.Unix now) (time.Unix t)) as Hoff.
  unfold candidateDay.
  destruct (Z.leb_spec (18 * 3600) (secondOfDay now)) as [Ln|Ln],
           (Z.leb_spec (18 * 3600) (secondOfDay t)) as [Lt|Lt].
  - rewrite Hin, Hit in Hle. lia.
  - apply Z.leb_le in Hsn.
    destruct (Z.eq_dec (localDay t) (localDay now)) as [E|E].
    + rewrite E in Hst. apply Z.leb_gt in Hst. lia.
    + rewrite Hin, Hit in Hle. lia.
  - rewrite Hin, Hit in Hle. lia.
  - rewrite Hin, Hit in Hle. lia.
Qed.

Lemma candidateDay_before_end (t : time.Time) (day : Z) :
  calm t = true -> narrow (time.zone t) ->
  instant t < instant (atHour day 18 (time.zone t)) ->
  candidateDay t <= day.
Proof.
  intros Hct Hn Hlt.
  pose proof (calm_six t Hct) as Hst.
  destruct (instant_split t) as (Hit & Hsodt & Hnst).
  rewrite instant_atHour in Hlt.
  pose proof (dateOffset_narrow (time.zone t) day (18 * 3600)
                (time.Unix t) Hn) as Hoff.
  unfold candidateDay.
  destruct (Z.leb_spec (18 * 3600) (secondOfDay t)) as [Lt|Lt].
  - apply Z.leb_le in Hst.
    destruct (Z.eq_dec (localDay t) day) as [E|E].
    + rewrite E, instant_atHour in Hst. lia.
    + rewrite Hit in Hlt. lia.
  - rewrite Hit in Hlt. lia.
Qed.

(** From [now] until the end of the workday it returns, [nextWorkDay]
    returns the same workday: for every time [t] of the same location,
    at or after [now] and before that end, as long as the location plays
    no trick at [now] nor at [t] and its offsets differ by less than six
    hours. *)
Theorem nextWorkDay_stable (now t : time.Time) :
  calm now = true -> calm t = true -> narrow (time.zone now) ->
  time.zone t = time.zone now ->
  instant now <= instant t < instant (End (nextWorkDay now)) ->
  nextWorkDay t = nextWorkDay now.
Proof.
  intros Hcn Hct Hn Hz [Hle Hlt].
  pose proof (candidateDay_mono now t Hcn Hct Hn Hz Hle) as Hmono.
  rewrite (nextWorkDay_closed now Hcn) in Hlt.
  unfold workday, End in Hlt. cbn [end_] in Hlt. rewrite <- Hz in Hlt, Hn.
  pose proof (candidateDay_before_end t _ Hct Hn Hlt) as Hup.
  rewrite (nextWorkDay_closed now Hcn), (nextWorkDay_closed t Hct), Hz.
  rewrite (weekendSkip_between (candidateDay now) (candidateDay t)) by lia.
  reflexivity.
Qed.

Lemma nextWorkDay_stable_witness :
  let friday := time.Date 2017 3 10 18 0 0 0 Chicago2017 in
  let sunday := time.Date 2017 3 12 12 0 0 0 Chicago2017 in
  nextWorkDay sunday = nextWorkDay friday.
Proof.
  cbv zeta.
  apply (nextWorkDay_stable (time.Date 2017 3 10 18 0 0 0 Chicago2017)
                            (time.Date 2017 3 12 12 0 0 0 Chicago2017)).
  - reflexivity.
  - reflexivity.
  - exact Chicago2017_narrow.
  - reflexivity.
  - vm_compute. split; [discriminate | reflexivity].
Defined.


(* ================================================================== *)
(** ** The seeded ranges *)

Lemma seedRanges_unfold (now : time.Time) :
  seedRanges now
  = [After (nextWorkDay (time.AddDate now 0 0 0)) now;
     After (nextWorkDay (time.AddDate now 0 0 1)) now;
     After (nextWorkDay (time.AddDate now 0 0 2)) now].
Proof. reflexivity. Qed.

Lemma After_End (r : Range) (t : time.Time) : End (After r t) = End r.
Proof.
  unfold After.
  destruct (time.After t (End r)); [reflexivity|].
  destruct (time.Before t (Start r)); reflexivity.
Qed.

(** Clipped at a time before its end, a range of positive length stays
    of positive length, starts at or after that time and lies within the
    range. *)
Lemma After_before_end (r : Range) (t : time.Time) :
  positive r -> instant t < instant (End r) ->
  positive (After r t)
  /\ instant t <= instant (Start (After r t))
  /\ within (After r t) r.
Proof.
  unfold positive, within, After, time.After, time.Before, instant.
  intros Hp Ht.
  destruct (Z.ltb_spec (time.unixNano (End r)) (time.unixNano t)); [lia|].
  destruct (Z.ltb_spec (time.unixNano t) (time.unixNano (Start r))).
  - lia.
  - unfold Start, End in *. cbn [start end_]. lia.
Qed.

(** A workday clipped at [now] starts at or after the workday starts. *)
Lemma After_Start_ge (r : Range) (t : time.Time) :
  wellFormed r -> instant (Start r) <= instant (Start (After r t)).
Proof.
  unfold wellFormed, After, time.After, time.Before, instant. intros Hwf.
  destruct (Z.ltb_spec (time.unixNano (End r)) (time.unixNano t)).
  - unfold Start, End in *. cbn [start end_]. lia.
  - destruct (Z.ltb_spec (time.unixNano t) (time.unixNano (Start r))).
    + lia.
    + unfold Start, End in *. cbn [start end_]. lia.
Qed.

Section Seeds.

Variable now : time.Time.
Hypothesis seeds_calm : calmSeeds now = true.

(** What [calmSeeds] says, part by part. *)
Lemma calmSeeds_zero : instant now <= instant (time.AddDate now 0 0 0).
Proof.
  unfold calmSeeds in seeds_calm.
  apply andb_true_iff in seeds_calm as [H _]. apply Z.leb_le, H.
Qed.

Lemma calmSeeds_each (i : Z) :
  0 <= i < 3 ->
  resolves (time.zone now) (localDay now + i) (secondOfDay now) = true
  /\ calm (time.AddDate now 0 0 i) = true.
Proof.
  intros Hi. unfold calmSeeds in seeds_calm.
  apply andb_true_iff in seeds_calm as [_ H].
  rewrite forallb_forall in H.
  assert (Hin : In i [0; 1; 2]) by (cbn; lia).
  apply andb_true_iff, (H i Hin).
Qed.

(** The time [i] days after [now] shows the clock of [now], [i] days
    later, in the same location. *)
Lemma seed_time (i : Z) :
  0 <= i < 3 ->
  let t := time.AddDate now 0 0 i in
  localDay t = localDay now + i
  /\ secondOfDay t = secondOfDay now
  /\ time.zone t = time.zone now
  /\ candidateDay t = candidateDay now + i.
Proof.
  intros Hi. cbv zeta. destruct (calmSeeds_each i Hi) as [Hres _].
  rewrite timeFacts.AddDate_days.
  destruct (timeFacts.abs_split now) as [_ Hs].
  destruct (timeFacts.unixNano_split now) as [_ Hn].
  change time.secondsPerDay with 86400 in Hs.
  destruct (timeFacts.resolves_shows _ _ _ _ Hres Hs Hn) as (Hd & Hsod & _).
  cbv zeta in Hd, Hsod.
  split; [exact Hd|]. split; [exact Hsod|]. split; [reflexivity|].
  unfold candidateDay. rewrite Hd, Hsod.
  destruct (18 * 3600 <=? secondOfDay now); ring.
Qed.

(** The workday the [i]-th range is seeded from. *)
Lemma nextWorkDay_AddDate (i : Z) :
  0 <= i < 3 ->
  nextWorkDay (time.AddDate now 0 0 i)
  = workday (candidateDay now + i + weekendSkip (candidateDay now + i))
            (time.zone now).
Proof.
  intros Hi. destruct (calmSeeds_each i Hi) as [_ Hcalm].
  destruct (seed_time i Hi) as (_ & _ & Hz & Hc). cbv zeta in Hz, Hc.
  rewrite nextWorkDay_closed by exact Hcalm. rewrite Hz, Hc. reflexivity.
Qed.

(** The location resolves 18:00 of that workday. *)
Lemma seed_day_resolves (i : Z) :
  0 <= i < 3 ->
  resolves (time.zone now)
           (candidateDay now + i + weekendSkip (candidateDay now + i))
           (18 * 3600)
  = true.
Proof.
  intros Hi. destruct (calmSeeds_each i Hi) as [_ Hcalm].
  destruct (seed_time i Hi) as (_ & _ & Hz & Hc). cbv zeta in Hz, Hc.
  pose proof (calm_end _ Hcalm) as H. rewrite Hz, Hc in H. exact H.
Qed.

Hypothesis zone_narrow : narrow (time.zone now).

(** Adding days does not lead to an earlier time. *)
Lemma seed_time_later (i : Z) :
  0 <= i < 3 -> instant now <= instant (time.AddDate now 0 0 i).
Proof.
  intros Hi. destruct (Z.eq_dec i 0) as [->|Hpos]; [apply calmSeeds_zero|].
  rewrite timeFacts.AddDate_days. unfold instant at 2.
  cbn [time.unixNano]. unfold instant at 2, atClock. cbn [time.unixNano].
  destruct (instant_split now) as (-> & Hs & Hn).
  pose proof (dateOffset_narrow (time.zone now) (localDay now + i)
                (secondOfDay now) (time.Unix now) zone_narrow).
  unfold wallUnix. change time.secondsPerDay with 86400. lia.
Qed.

Lemma seed_each (i : Z) :
  0 <= i < 3 ->
  let day := nextWorkDay (time.AddDate now 0 0 i) in
  positive (After day now)
  /\ instant now <= instant (Start (After day now))
  /\ within (After day now) day.
Proof.
  intros Hi. cbv zeta. destruct (calmSeeds_each i Hi) as [_ Hcalm].
  destruct (seed_time i Hi) as (_ & _ & Hz & _). cbv zeta in Hz.
  apply After_before_end.
  - rewrite nextWorkDay_AddDate by exact Hi.
    apply workday_positive, zone_narrow.
  - pose proof (seed_time_later i Hi) as Hlater.
    assert (Hn : narrow (time.zone (time.AddDate now 0 0 i)))
      by (rewrite Hz; exact zone_narrow).
    pose proof (nextWorkDay_ends_after _ Hcalm Hn). lia.
Qed.

(** When the location plays no trick on the seeding loop and its
    offsets differ by less than six hours, the loop seeds three ranges;
    each has positive length, does not start before [now], and lies
    within the workday [nextWorkDay] gives for [now] plus 0, 1 or 2 days,
    ending when that workday ends: the zero-length branch of [After] is
    never taken. *)
Theorem seedRanges_sound :
  List.length (seedRanges now) = 3%nat
  /\ Forall
       (fun x =>
          positive x
          /\ instant now <= instant (Start x)
          /\ exists i, 0 <= i < 3
               /\ within x (nextWorkDay (time.AddDate now 0 0 i))
               /\ End x = End (nextWorkDay (time.AddDate now 0 0 i)))
       (seedRanges now).
Proof.
  split; [reflexivity|]. rewrite seedRanges_unfold.
  repeat constructor;
    try (apply seed_each; lia);
    match goal with
    | |- exists i, _ /\ within (After (nextWorkDay (time.AddDate _ 0 0 ?k)) _) _ /\ _ =>
        exists k; split; [lia|]; split; [apply seed_each; lia | apply After_End]
    end.
Qed.

End Seeds.

Lemma seedRanges_sound_witness :
  let now := time.Date 2017 3 10 18 0 0 0 Chicago2017 in
  Forall (fun x => positive x /\ instant now <= instant (Start x))
         (seedRanges now).
Proof.
  cbv zeta.
  pose proof (proj2 (seedRanges_sound
                       (time.Date 2017 3 10 18 0 0 0 Chicago2017)
                       ltac:(reflexivity) Chicago2017_narrow)) as H.
  eapply Forall_impl; [|exact H]. cbn beta. intros x (Hp & Hs & _).
  split; assumption.
Defined.

Lemma seed_day_inj (now : time.Time) (d d' : Z) :
  resolves (time.zone now) d (18 * 3600) = true ->
  resolves (time.zone now) d' (18 * 3600) = true ->
  After (workday d (time.zone now)) now
  = After (workday d' (time.zone now)) now ->
  d = d'.
Proof.
  intros Hd Hd' H. apply (f_equal End) in H. rewrite !After_End in H.
  unfold workday, End in H. cbn [end_] in H.
  apply (f_equal localDay) in H.
  destruct (timeFacts.resolves_atHour _ _ 18 Hd ltac:(lia)) as (E & _).
  destruct (timeFacts.resolves_atHour _ _ 18 Hd' ltac:(lia)) as (E' & _).
  rewrite E, E' in H. exact H.
Qed.

(** When the location plays no trick on the seeding loop, the three
    seeded ranges are distinct exactly when the candidate day of [now]
    is a day from Monday to Thursday.  On a Friday, a Saturday or a
    Sunday the lookahead runs into the weekend and the workday of the
    following Monday is seeded more than once. *)
Theorem seedRanges_NoDup (now : time.Time) :
  calmSeeds now = true ->
  NoDup (seedRanges now)
  <-> time.Monday <= weekdayOf (candidateDay now) <= time.Thursday.
Proof.
  intros Hcalm.
  pose proof (seed_day_resolves now Hcalm 0 ltac:(lia)) as R0.
  pose proof (seed_day_resolves now Hcalm 1 ltac:(lia)) as R1.
  pose proof (seed_day_resolves now Hcalm 2 ltac:(lia)) as R2.
  rewrite seedRanges_unfold, !(nextWorkDay_AddDate now Hcalm) by lia.
  set (c := candidateDay now) in *. set (z := time.zone now) in *.
  pose proof (weekdayOf_range c) as Hr.
  pose proof (weekdayOf_succ c) as H1.
  pose proof (weekdayOf_succ (c + 1)) as H2.
  replace (c + 1 + 1) with (c + 2) in H2 by ring.
  rewrite Z.add_0_r in *.
  unfold time.Monday, time.Thursday.
  assert (Hw : weekdayOf c = 0 \/ weekdayOf c = 1 \/ weekdayOf c = 2
               \/ weekdayOf c = 3 \/ weekdayOf c = 4 \/ weekdayOf c = 5
               \/ weekdayOf c = 6) by lia.
  destruct Hw as [E|[E|[E|[E|[E|[E|E]]]]]];
    rewrite E in H1; cbn in H1; rewrite H1 in H2; cbn in H2;
    rewrite (weekendSkip_of c _ E), (weekendSkip_of _ _ H1),
      (weekendSkip_of _ _ H2) in *;
    rewrite E; cbn [Z.eqb Pos.eqb] in *;
    rewrite ?Z.add_0_r in *;
    (split; [intros Hnd | intros Hwd]); try lia;
    try (exfalso; apply NoDup_cons_iff in Hnd as [Hnot Hnd];
         first [ apply Hnot; cbn [In];
                 first [ left; f_equal; f_equal; ring
                       | right; left; f_equal; f_equal; ring ]
               | apply NoDup_cons_iff in Hnd as [Hnot' _]; apply Hnot';
                 cbn [In]; left; f_equal; f_equal; ring ]);
    repeat (apply NoDup_cons;
            [cbn [In]; intros Hin;
             repeat match goal with
             | H : _ \/ _ |- _ => destruct H
             | H : False |- _ => destruct H
             | H : After _ _ = After _ _ |- _ =>
                 apply seed_day_inj in H; [lia | assumption | assumption]
             end|]);
    apply NoDup_nil.
Qed.

Lemma seedRanges_NoDup_witness :
  let now := time.Date 2017 3 10 18 0 0 0 Chicago2017 in
  ~ NoDup (seedRanges now).
Proof.
  cbv zeta. intros H.
  apply (seedRanges_NoDup (time.Date 2017 3 10 18 0 0 0 Chicago2017)
           ltac:(reflexivity)) in H.
  vm_compute in H. destruct H as [_ H]. apply H. reflexivity.
Defined.

Lemma seed_before (now : time.Time) (d d' : Z) :
  narrow (time.zone now) ->
  d < d' ->
  instant (End (After (workday d (time.zone now)) now))
  <= instant (Start (After (workday d' (time.zone now)) now)).
Proof.
  intros Hn Hlt. rewrite After_End.
  pose proof (After_Start_ge (workday d' (time.zone now)) now
                (workday_wellFormed _ _ Hn)) as H.
  unfold workday, Start, End in *. cbn [start end_] in *.
  rewrite instant_atHour in *.
  pose proof (dateOffset_narrow (time.zone now) d (18 * 3600)
                (time.Unix now) Hn).
  pose proof (dateOffset_narrow (time.zone now) d' (10 * 3600)
                (time.Unix now) Hn).
  lia.
Qed.

(** When the candidate day of [now] is a day from Monday to Thursday the
    seeded ranges follow one another in time. *)
Lemma seedRanges_chronological (now : time.Time) :
  calmSeeds now = true -> narrow (time.zone now) ->
  time.Monday <= weekdayOf (candidateDay now) <= time.Thursday ->
  chronological (seedRanges now).
Proof.
  intros Hcalm Hn.
  rewrite seedRanges_unfold, !(nextWorkDay_AddDate now Hcalm) by lia.
  set (c := candidateDay now).
  pose proof (weekdayOf_succ c) as H1.
  pose proof (weekdayOf_succ (c + 1)) as H2.
  replace (c + 1 + 1) with (c + 2) in H2 by ring.
  rewrite Z.add_0_r.
  unfold time.Monday, time.Thursday. intros Hr.
  assert (Hw : weekdayOf c = 1 \/ weekdayOf c = 2 \/ weekdayOf c = 3
               \/ weekdayOf c = 4) by lia.
  destruct Hw as [E|[E|[E|E]]];
    rewrite E in H1; cbn in H1; rewrite H1 in H2; cbn in H2;
    rewrite (weekendSkip_of c _ E), (weekendSkip_of _ _ H1),
      (weekendSkip_of _ _ H2); cbn [Z.eqb Pos.eqb];
    unfold chronological;
    repeat first [ apply FOP_nil | apply FOP_cons | apply Forall_nil
                 | apply Forall_cons ];
    apply seed_before; (exact Hn || lia).
Qed.

(* ================================================================== *)
(** ** The busy calendars *)

Lemma contains_iff (s : string) (slice : list string) :
  contains s slice = true <-> In s slice.
Proof.
  induction slice as [|i slice IH]; cbn [contains In].
  - split; [discriminate | contradiction].
  - destruct (String.eqb_spec i s) as [E|E].
    + split; [intros _; now left | reflexivity].
    + rewrite IH. split; [now right | intros [H|H]; [contradiction | exact H]].
Qed.

(** [contains] tells whether the string is an element of the slice:
    true exactly when it is, false exactly when it is not.  Strings are
    compared as they are, case included. *)
Theorem contains_In (s : string) (slice : list string) :
  (contains s slice = true <-> In s slice)
  /\ (contains s slice = false <-> ~ In s slice).
Proof.
  split; [apply contains_iff|].
  rewrite <- contains_iff. destruct (contains s slice); split;
    intros H; try reflexivity; try discriminate; auto.
  now destruct H.
Qed.

Lemma busyIDs_from (items : list CalendarListEntry) (acc : list string) :
  fold_left
    (fun busyIDs i =>
       if contains (Summary i) busySummaries then busyIDs ++ [Id i]
       else busyIDs)
    items acc
  = acc ++ map Id (filter (fun i => contains (Summary i) busySummaries) items).
Proof.
  revert acc. induction items as [|i items IH]; intros acc;
    cbn [fold_left filter map].
  - now rewrite app_nil_r.
  - rewrite IH. destruct (contains (Summary i) busySummaries);
      [cbn [map]; rewrite <- app_assoc|]; reflexivity.
Qed.

(** The busy ids are the ids of the calendars named UIUC, Social or
    YMCA, in the order of the calendar list, one per such calendar. *)
Theorem busyIDs_spec (items : list CalendarListEntry) :
  busyIDs items
  = map Id (filter (fun i => contains (Summary i) busySummaries) items)
  /\ forall id,
       In id (busyIDs items)
       <-> exists i, In i items /\ Id i = id
                     /\ (Summary i = "UIUC"%string
                         \/ Summary i = "Social"%string
                         \/ Summary i = "YMCA"%string).
Proof.
  assert (Heq : busyIDs items
                = map Id (filter (fun i => contains (Summary i) busySummaries)
                                 items))
    by (unfold busyIDs; now rewrite busyIDs_from).
  split; [exact Heq|]. intros id. rewrite Heq, in_map_iff. split.
  - intros (i & Hid & Hin). apply filter_In in Hin as [Hin Hc].
    exists i. repeat split; [exact Hin | exact Hid|].
    apply contains_iff in Hc. cbn in Hc.
    destruct Hc as [H|[H|[H|[]]]]; auto.
  - intros (i & Hin & Hid & Hs). exists i. split; [exact Hid|].
    apply filter_In. split; [exact Hin|]. apply contains_iff. cbn.
    destruct Hs as [H|[H|H]]; auto.
Qed.


(* ================================================================== *)
(** ** The ranges [main] prints *)

(** When [main] gets to print, in a location that plays no trick on the
    seeding loop and whose offsets differ by less than six hours, every
    range it prints lasts 30 minutes or more, does not start before
    [now], lies within the workday of [now] plus 0, 1 or 2 days, and
    overlaps none of the busy events that have a start [DateTime]. *)
Theorem freeTime_sound (Parse : string -> option time.Time) (round : Q -> Q)
    (now : time.Time) (busyEvents : list Event) (result : list Range) :
  roundsToFloat64 round ->
  calmSeeds now = true -> narrow (time.zone now) ->
  freeTime Parse round now busyEvents = Some result ->
  Forall
    (fun x =>
       30 * time.Minute <= Duration x
       /\ instant now <= instant (Start x)
       /\ (exists i, 0 <= i < 3
             /\ within x (nextWorkDay (time.AddDate now 0 0 i)))
       /\ forall event s e,
            In event busyEvents -> parsesTo Parse event s e ->
            ~ overlaps x s e)
    result.
Proof.
  intros Hround Hcalm Hn Hres. unfold freeTime in Hres.
  destruct (reduce Parse (seedRanges now) busyEvents) as [free|] eqn:Hred;
    [|discriminate].
  injection Hres as <-. unfold prune.
  rewrite (prune_from round Hround free []). cbn [app].
  pose proof (reduce_result Parse busyEvents _ _ Hred) as Hfree.
  rewrite Forall_forall in Hfree.
  apply Forall_forall. intros x Hx. unfold keepLong in Hx.
  apply filter_In in Hx as [Hx Hlong]. apply Z.leb_le in Hlong.
  destruct (Hfree x Hx) as [(r & Hr & Wxr) Hclear].
  split; [exact Hlong|].
  assert (Hseed : instant now <= instant (Start r)
                  /\ exists i, 0 <= i < 3
                       /\ within r (nextWorkDay (time.AddDate now 0 0 i))).
  { rewrite seedRanges_unfold in Hr. cbn [In] in Hr.
    destruct Hr as [<-|[<-|[<-|[]]]].
    - destruct (seed_each now Hcalm Hn 0 ltac:(lia)) as (_ & Hs & Hw).
      split; [exact Hs|]. exists 0. split; [lia | exact Hw].
    - destruct (seed_each now Hcalm Hn 1 ltac:(lia)) as (_ & Hs & Hw).
      split; [exact Hs|]. exists 1. split; [lia | exact Hw].
    - destruct (seed_each now Hcalm Hn 2 ltac:(lia)) as (_ & Hs & Hw).
      split; [exact Hs|]. exists 2. split; [lia | exact Hw]. }
  destruct Hseed as [Hs (i & Hi & Hw)].
  split; [unfold within in Wxr; lia|].
  split; [|exact Hclear].
  exists i. split; [exact Hi | exact (within_trans _ _ _ Wxr Hw)].
Qed.

(** Friday 2017-03-10 at 09:00 in Chicago, the Sunday after which the
    clocks go forward, with one event from 12:00 to 13:00. *)
Lemma freeTime_sound_witness :
  let Parse := fun s : string =>
    if String.eqb s "noon"
    then Some (time.Date 2017 3 10 12 0 0 0 Chicago2017)
    else if String.eqb s "one"
         then Some (time.Date 2017 3 10 13 0 0 0 Chicago2017)
         else None in
  let now := time.Date 2017 3 10 9 0 0 0 Chicago2017 in
  let events := [mkEvent "noon" "one"] in
  exists result,
    freeTime Parse (fun q => q) now events = Some result
    /\ Forall
         (fun x =>
            30 * time.Minute <= Duration x
            /\ instant now <= instant (Start x)
            /\ (exists i, 0 <= i < 3
                  /\ within x (nextWorkDay (time.AddDate now 0 0 i)))
            /\ forall event s e,
                 In event events -> parsesTo Parse event s e ->
                 ~ overlaps x s e)
         result.
Proof.
  cbv zeta. eexists. split.
  - vm_compute. reflexivity.
  - apply (freeTime_sound _ (fun q : Q => q)).
    + split; [intros x y H; exact H | intros q _; reflexivity].
    + reflexivity.
    + exact Chicago2017_narrow.
    + vm_compute. reflexivity.
Defined.

(** When, moreover, the candidate day of [now] is a day from Monday to
    Thursday and no busy event ends before it starts, the ranges [main]
    prints follow one another in time: each ends at or before the start
    of the next ones, so that no two of them overlap. *)
Theorem freeTime_chronological (Parse : string -> option time.Time)
    (round : Q -> Q) (now : time.Time) (busyEvents : list Event)
    (result : list Range) :
  roundsToFloat64 round ->
  calmSeeds now = true -> narrow (time.zone now) ->
  time.Monday <= weekdayOf (candidateDay now) <= time.Thursday ->
  (forall event s e,
     In event busyEvents -> parsesTo Parse event s e ->
     instant s <= instant e) ->
  freeTime Parse round now busyEvents = Some result ->
  chronological result.
Proof.
  intros Hround Hcalm Hn Hday Hord Hres. unfold freeTime in Hres.
  destruct (reduce Parse (seedRanges now) busyEvents) as [free|] eqn:Hred;
    [|discriminate].
  injection Hres as <-. unfold prune.
  rewrite (prune_from round Hround free []). cbn [app].
  apply chronological_filter.
  apply (reduce_chronological Parse busyEvents (seedRanges now) free Hord).
  - apply seedRanges_chronological; assumption.
  - exact Hred.
Qed.

(** Thursday 2017-03-09 at 09:00 in Chicago with one event from 12:00
    to 13:00: the ranges of Thursday, of Friday and, the clocks having
    gone forward, of Monday. *)
Lemma freeTime_chronological_witness :
  let Parse := fun s : string =>
    if String.eqb s "noon"
    then Some (time.Date 2017 3 9 12 0 0 0 Chicago2017)
    else if String.eqb s "one"
         then Some (time.Date 2017 3 9 13 0 0 0 Chicago2017)
         else None in
  let now := time.Date 2017 3 9 9 0 0 0 Chicago2017 in
  let events := [mkEvent "noon" "one"] in
  exists result,
    freeTime Parse (fun q => q) now events = Some result
    /\ chronological result.
Proof.
  cbv zeta.
  set (Parse := fun s : string =>
    if String.eqb s "noon"
    then Some (time.Date 2017 3 9 12 0 0 0 Chicago2017)
    else if String.eqb s "one"
         then Some (time.Date 2017 3 9 13 0 0 0 Chicago2017)
         else None).
  eexists. split.
  - vm_compute. reflexivity.
  - apply (freeTime_chronological Parse (fun q : Q => q)
             (time.Date 2017 3 9 9 0 0 0 Chicago2017)
             [mkEvent "noon" "one"]).
    + split; [intros x y H; exact H | intros q _; reflexivity].
    + reflexivity.
    + exact Chicago2017_narrow.
    + vm_compute. split; discriminate.
    + intros event s e [<-|[]] (_ & Hs & He).
      vm_compute in Hs, He. injection Hs as <-. injection He as <-.
      vm_compute. discriminate.
    + vm_compute. reflexivity.
Defined.
